(** * The Synacor virtual machine of [main.go], embedded in Rocq

    The interpreter is a single Go function, [main], that loops over a
    program of 16-bit words with eight registers, an unbounded stack and a
    line buffer for terminal input.  This file transcribes it: [uint16]
    values are integers of [Z] with the wrap-around of every arithmetic
    operation written out ([u16]); slices are lists read and written by
    index, with the run-time bounds check made explicit; a Go panic is a
    value of [fatal]; one iteration of the [VM] loop is the function
    [step]. *)

From Stdlib Require Import ZArith Lia List.
From Stdlib.Strings Require Import Byte.
From stdpp Require Import base list.
Import ListNotations.
Open Scope Z_scope.

(** ** Machine words and panics *)

(** Conversion to [uint16]: every arithmetic result of that type is reduced
    modulo 2^16. *)
Definition u16 (z : Z) : Z := z mod 65536.

(** Bitwise complement [^x] at type [uint16]: exclusive or with the word
    whose sixteen bits are all set. *)
Definition compl16 (x : Z) : Z := Z.lxor x 65535.

(** The ways an iteration can abort the process: the three explicit
    [panic] calls of the interpreter ([Overflow], [EmptyStack] carried by
    the error of [Pop], [UnknownOpcode]), the read error of the terminal,
    and the two run-time panics of Go that the code can trigger. *)
Inductive fatal : Type :=
  | Overflow
  | EmptyStack
  | UnknownOpcode (op : Z)
  | ReadError
  | OutOfRange
  | DivideByZero.

Inductive result (A : Type) : Type :=
  | Ok (a : A)
  | Panic (e : fatal).
Arguments Ok {A} a.
Arguments Panic {A} e.

#[global] Instance result_ret : MRet result := @Ok.

#[global] Instance result_bind : MBind result := fun A B k m =>
  match m with
  | Ok a => k a
  | Panic e => Panic e
  end.

(** [sl[i]] as an expression: bounds-checked read. *)
Definition at_index (sl : list Z) (i : Z) : result Z :=
  if (0 <=? i) && (i <? Z.of_nat (length sl))
  then match sl !! Z.to_nat i with
       | Some w => Ok w
       | None => Panic OutOfRange
       end
  else Panic OutOfRange.

(** [sl[i] = v] as a statement: bounds-checked write in place. *)
Definition store (sl : list Z) (i v : Z) : result (list Z) :=
  if (0 <=? i) && (i <? Z.of_nat (length sl))
  then Ok (<[Z.to_nat i := v]> sl)
  else Panic OutOfRange.

(** ** getValue and setRegister *)

Definition getValue (registers : list Z) (value : Z) : result Z :=
  if value <? 32768 then Ok value
  else if value >? 32775 then Panic Overflow
  else at_index registers (u16 (value - 32768)).

(** The right-hand side is evaluated before the indexed store happens, so
    an overflow of [value] wins over a bad [register]. *)
Definition setRegister (registers : list Z) (register value : Z)
  : result (list Z) :=
  v ← getValue registers value;
  store registers (u16 (register - 32768)) v.

(** ** The stack *)

(** The mutex of the Go struct guards against concurrent callers; the
    interpreter has one thread, so only the slice [s] is state. *)
Record stack : Type := mkStack { s : list Z }.

Definition newStack : stack := mkStack [].

Definition Push (st : stack) (v : Z) : stack := mkStack (s st ++ [v]).

(** [Pop] returns the new stack together with Go's pair (value, error). *)
Definition Pop (st : stack) : stack * (Z * option fatal) :=
  let l := length (s st) in
  match l with
  | O => (st, (0, Some EmptyStack))
  | S l1 => (mkStack (take l1 (s st)), (nth l1 (s st) 0, None))
  end.

(** ** Terminal *)

(** What the process writes, in emission order: [fmt.Printf("%c", v)] of
    opcode 19, the prompt [print(":")] of opcode 20, and the trace line of
    the debug mode. *)
Inductive event : Type :=
  | OutChar (v : Z)
  | Prompt
  | TraceLine (index op a b c va vb vc : Z).

(** The terminal as the process reads it: what the successive [Read]
    calls on [os.Stdin] find available, in order.  A terminal makes one
    line available at a time; a pipe or a file makes available whatever
    has been written.  The end of the list is the end of the input, and an
    empty chunk is a read that returns no byte, which [os.File] reports as
    the end of the input too. *)
Definition terminal : Type := list (list byte).

(** [bytes.IndexByte] and the slicing that follows it in the reader: the
    bytes up to and including the first [delim], and the bytes after it;
    [None] when there is no [delim]. *)
Fixpoint cut_after (delim : byte) (l : list byte)
  : option (list byte * list byte) :=
  match l with
  | [] => None
  | ch :: rest =>
      if Byte.eqb ch delim then Some ([ch], rest)
      else match cut_after delim rest with
           | Some (line, rest') => Some (ch :: line, rest')
           | None => None
           end
  end.

(** The size of the buffer of [bufio.NewReader]. *)
Definition defaultBufSize : nat := 4096.

(** One [Read] on [os.Stdin] into a slice with [room] bytes free: as much
    of the first chunk as fits, the rest of it staying available; [None]
    for the end of the input. *)
Definition os_Read (room : nat) (src : terminal) : option (list byte * terminal) :=
  match src with
  | [] => None
  | [] :: _ => None
  | chunk :: rest =>
      Some (take room chunk,
            match drop room chunk with
            | [] => rest
            | more => more :: rest
            end)
  end.

(** The loop of [ReadString] in a reader: [full] holds the buffers that
    filled up without a [delim], [buf] the bytes buffered and scanned so
    far.  The buffer is filled by one [Read]; when the [delim] is then in
    the buffer the line is returned, and the bytes buffered after it stay
    in the reader; when the buffer is full it is set aside and emptied.
    Every fill takes at least one byte from the source, so [fuel] above
    the number of bytes of the source is never used up. *)
Fixpoint read_line (fuel : nat) (delim : byte) (full buf : list byte)
  (src : terminal) : option (list byte * terminal) :=
  match fuel with
  | O => None
  | S n =>
      match os_Read (defaultBufSize - length buf)%nat src with
      | None => None
      | Some (got, src') =>
          match cut_after delim (buf ++ got) with
          | Some (line, _) => Some (full ++ line, src')
          | None =>
              if (defaultBufSize <=? length (buf ++ got))%nat
              then read_line n delim (full ++ buf ++ got) [] src'
              else read_line n delim full (buf ++ got) src'
          end
      end
  end.

(** [bufio.NewReader(os.Stdin).ReadString(delim)], the reader being dropped
    after the call: the line up to and including the first [delim],
    and what is left for later reads of the terminal, which is not what
    the reader had read ahead; [None] when the input ends before a [delim]
    (the call then returns a non-nil error). *)
Definition ReadString (delim : byte) (src : terminal)
  : option (list byte * terminal) :=
  read_line (S (length (concat src))) delim [] [] src.

Definition newline : byte := x0a.

(** [uint16(input[0])]: a Go string is indexed by byte. *)
Definition char_code (ch : byte) : Z := Z.of_N (Byte.to_N ch).

(** ** The state of [main] *)

(** The local variables of [main] that change while the loop runs, and the
    two ends of the terminal: [stdin] holds what the reads to come will
    find, [output] what has been written so far.  [length] is not stored: it is
    computed once from a slice whose length never changes afterwards (see
    [length16]). *)
Record vm : Type := mkVM {
  registers : list Z;
  stk : stack;
  program : list Z;
  index : Z;
  input : list byte;
  stdin : terminal;
  output : list event
}.

Definition with_registers (st : vm) (r : list Z) : vm :=
  mkVM r (stk st) (program st) (index st) (input st) (stdin st) (output st).
Definition with_stk (st : vm) (k : stack) : vm :=
  mkVM (registers st) k (program st) (index st) (input st) (stdin st) (output st).
Definition with_program (st : vm) (p : list Z) : vm :=
  mkVM (registers st) (stk st) p (index st) (input st) (stdin st) (output st).
Definition with_index (st : vm) (i : Z) : vm :=
  mkVM (registers st) (stk st) (program st) i (input st) (stdin st) (output st).
Definition with_input (st : vm) (buf : list byte) : vm :=
  mkVM (registers st) (stk st) (program st) (index st) buf (stdin st) (output st).
Definition with_stdin (st : vm) (src : terminal) : vm :=
  mkVM (registers st) (stk st) (program st) (index st) (input st) src (output st).
Definition emit (st : vm) (e : event) : vm :=
  mkVM (registers st) (stk st) (program st) (index st) (input st) (stdin st)
       (output st ++ [e]).

(** [length := uint16(len(program))]. *)
Definition length16 (st : vm) : Z := u16 (Z.of_nat (length (program st))).

(** [index += k]. *)
Definition advance (st : vm) (k : Z) : vm := with_index st (u16 (index st + k)).

(** How an iteration that did not panic ends: it reaches the [index++] at
    the bottom of the loop, or it leaves the loop by [break VM]. *)
Inductive outcome : Type :=
  | Continue (st : vm)
  | Break (st : vm).

(** The [index++] that closes every iteration not left by [break VM]. *)
Definition loop_end (st : vm) : result outcome := Ok (Continue (advance st 1)).

(** ** One iteration of the loop *)

(** The three operand reads at the top of the loop.  All three are guarded
    by the same test [index+1 < length]; the reads themselves are at
    [index+1], [index+2] and [index+3]. *)
Definition operands (st : vm) : result (Z * Z * Z) :=
  a ← (if u16 (index st + 1) <? length16 st
       then at_index (program st) (u16 (index st + 1)) else Ok 0);
  b ← (if u16 (index st + 1) <? length16 st
       then at_index (program st) (u16 (index st + 2)) else Ok 0);
  c ← (if u16 (index st + 1) <? length16 st
       then at_index (program st) (u16 (index st + 3)) else Ok 0);
  Ok (a, b, c).

(** [debug] is set to false before the loop and never assigned again. *)
Definition debug : bool := false.

Definition trace (st : vm) (a b c : Z) : result vm :=
  if debug then
    op ← at_index (program st) (index st);
    va ← getValue (registers st) a;
    vb ← getValue (registers st) b;
    vc ← getValue (registers st) c;
    Ok (emit st (TraceLine (index st) op a b c va vb vc))
  else Ok st.

(** The head of opcode 20: when the line buffer is empty, prompt and read
    one line from the terminal into it.  The Go code wraps the terminal in
    a new buffered reader for every line and drops it after the line, so
    what that reader had read beyond the newline is lost: the terminal is
    left as [ReadString] leaves it. *)
Definition refill (st : vm) : result vm :=
  match input st with
  | [] =>
      match ReadString newline (stdin st) with
      | Some (line, rest) => Ok (with_input (with_stdin (emit st Prompt) rest) line)
      | None => Panic ReadError
      end
  | _ :: _ => Ok st
  end.

(** The three-operand opcodes that store a function of [<b>] and [<c>]. *)
Definition binary (st : vm) (a b c : Z) (f : Z -> Z -> Z) : result outcome :=
  vb ← getValue (registers st) b;
  vc ← getValue (registers st) c;
  r ← setRegister (registers st) a (f vb vc);
  loop_end (advance (with_registers st r) 3).

(** The [switch] on [program[index]]. *)
Definition exec (st : vm) (op a b c : Z) : result outcome :=
  match op with
  | 0 => Ok (Break st)
  | 1 =>
      r ← setRegister (registers st) a b;
      loop_end (advance (with_registers st r) 2)
  | 2 =>
      v ← getValue (registers st) a;
      loop_end (advance (with_stk st (Push (stk st) v)) 1)
  | 3 =>
      let '(stk', (value, err)) := Pop (stk st) in
      match err with
      | Some e => Panic e
      | None =>
          r ← setRegister (registers st) a value;
          loop_end (advance (with_registers (with_stk st stk') r) 1)
      end
  | 4 => binary st a b c (fun vb vc => if vb =? vc then 1 else 0)
  | 5 => binary st a b c (fun vb vc => if vb >? vc then 1 else 0)
  | 6 =>
      v ← getValue (registers st) a;
      loop_end (with_index st (u16 (v - 1)))
  | 7 =>
      v ← getValue (registers st) a;
      if negb (v =? 0) then
        t ← getValue (registers st) b;
        loop_end (with_index st (u16 (t - 1)))
      else loop_end (advance st 2)
  | 8 =>
      v ← getValue (registers st) a;
      if v =? 0 then
        t ← getValue (registers st) b;
        loop_end (with_index st (u16 (t - 1)))
      else loop_end (advance st 2)
  | 9 => binary st a b c (fun vb vc => u16 (vb + vc) mod 32768)
  | 10 => binary st a b c (fun vb vc => u16 (vb * vc) mod 32768)
  | 11 =>
      vb ← getValue (registers st) b;
      vc ← getValue (registers st) c;
      if vc =? 0 then Panic DivideByZero
      else
        r ← setRegister (registers st) a (vb mod vc);
        loop_end (advance (with_registers st r) 3)
  | 12 => binary st a b c (fun vb vc => Z.land vb vc mod 32768)
  | 13 => binary st a b c (fun vb vc => Z.lor vb vc mod 32768)
  | 14 =>
      vb ← getValue (registers st) b;
      r ← setRegister (registers st) a (compl16 vb mod 32768);
      loop_end (advance (with_registers st r) 2)
  | 15 =>
      vb ← getValue (registers st) b;
      cell ← at_index (program st) vb;
      value ← getValue (registers st) cell;
      r ← setRegister (registers st) a value;
      loop_end (advance (with_registers st r) 2)
  | 16 =>
      address ← getValue (registers st) a;
      vb ← getValue (registers st) b;
      p ← store (program st) address vb;
      loop_end (advance (with_program st p) 2)
  | 17 =>
      let st1 := with_stk st (Push (stk st) (u16 (index st + 2))) in
      v ← getValue (registers st1) a;
      loop_end (with_index st1 (u16 (v - 1)))
  | 18 =>
      let '(stk', (value, err)) := Pop (stk st) in
      match err with
      | Some _ => Ok (Break st)
      | None =>
          v ← getValue (registers st) value;
          loop_end (with_index (with_stk st stk') (u16 (v - 1)))
      end
  | 19 =>
      v ← getValue (registers st) a;
      loop_end (advance (emit st (OutChar v)) 1)
  | 20 =>
      st1 ← refill st;
      match input st1 with
      | [] => Panic OutOfRange
      | ch :: rest =>
          let value := char_code ch in
          let st2 := with_input st1 rest in
          v ← getValue (registers st2) value;
          r ← setRegister (registers st2) a v;
          loop_end (advance (with_registers st2 r) 1)
      end
  | 21 => loop_end st
  | _ => Panic (UnknownOpcode op)
  end.

(** The body of the [VM] loop. *)
Definition step (st : vm) : result outcome :=
  '(a, b, c) ← operands st;
  st1 ← trace st a b c;
  op ← at_index (program st1) (index st1);
  exec st1 op a b c.

(** The loop itself, for at most [fuel] iterations; [None] when the fuel
    runs out before the loop is left. *)
Fixpoint run (fuel : nat) (st : vm) : option (result vm) :=
  match fuel with
  | O => None
  | S n =>
      match step st with
      | Ok (Continue st') => run n st'
      | Ok (Break st') => Some (Ok st')
      | Panic e => Some (Panic e)
      end
  end.

(** The state in which [main] enters the loop, for a program image and
    what the terminal will deliver. *)
Definition boot (image : list Z) (term : terminal) : vm :=
  mkVM (replicate 8 0) newStack image 0 [] term [].

(** The states the loop head can be in: the boot state and every state an
    iteration continues with. *)
Inductive reachable (image : list Z) (term : terminal) : vm -> Prop :=
  | reach_boot : reachable image term (boot image term)
  | reach_step st st' :
      reachable image term st ->
      step st = Ok (Continue st') ->
      reachable image term st'.

(** ** Loading the program *)

(** The two panics of [readBinary]: [os.Open] failed, or [binary.Read]
    met the end of the file inside a word. *)
Inductive load_error : Type :=
  | OpenError
  | UnexpectedEOF.

Inductive loaded (A : Type) : Type :=
  | Loaded (a : A)
  | LoadPanic (e : load_error).
Arguments Loaded {A} a.
Arguments LoadPanic {A} e.

(** [binary.LittleEndian.Uint16]: the first byte is the low one. *)
Definition LittleEndian_Uint16 (b0 b1 : byte) : Z :=
  Z.lor (char_code b0) (Z.shiftl (char_code b1) 8).

(** The loop of [readBinary] over the bytes of the file still to be read.
    [binary.Read] into a [uint16] asks for two bytes: with none left it
    returns [io.EOF] and the loop ends; with one left it returns another
    error, which is a panic; otherwise the word is appended. *)
Fixpoint read_words (file : list byte) (program : list Z) : loaded (list Z) :=
  match file with
  | [] => Loaded program
  | [_] => LoadPanic UnexpectedEOF
  | b0 :: b1 :: rest => read_words rest (program ++ [LittleEndian_Uint16 b0 b1])
  end.

(** [fs] is the file system: the content of the file at a path, if it can
    be opened. *)
Definition readBinary (fs : list byte -> option (list byte)) (path : list byte)
  : loaded (list Z) :=
  match fs path with
  | None => LoadPanic OpenError
  | Some file => read_words file []
  end.

(** The path "challenge.bin". *)
Definition challenge_bin : list byte :=
  [x63; x68; x61; x6c; x6c; x65; x6e; x67; x65; x2e; x62; x69; x6e].

(** [main]: load the program, then run the loop from the boot state. *)
Definition main (fs : list byte -> option (list byte)) (term : terminal)
  (fuel : nat) : loaded (option (result vm)) :=
  match readBinary fs challenge_bin with
  | LoadPanic e => LoadPanic e
  | Loaded program => Loaded (run fuel (boot program term))
  end.

(** ** Statements used by the theorems *)

(** A word as the machine stores it in a register: fifteen bits. *)
Definition word15 (w : Z) : Prop := 0 <= w <= 32767.

(** Any value of type [uint16]. *)
Definition word16 (w : Z) : Prop := 0 <= w < 65536.

(** Pushing a list of words, first to last. *)
Definition push_all (st : stack) (xs : list Z) : stack := fold_left Push xs st.

(** Popping [n] times; the words come out in the order they were popped.
    [None] as soon as one [Pop] reports the empty stack. *)
Fixpoint pop_n (n : nat) (st : stack) : option (stack * list Z) :=
  match n with
  | O => Some (st, [])
  | S n' =>
      let '(st', (v, err)) := Pop st in
      match err with
      | Some _ => None
      | None =>
          match pop_n n' st' with
          | Some (st'', vs) => Some (st'', v :: vs)
          | None => None
          end
      end
  end.

(** A request to the stack, and a run of requests against the Go stack that
    records what every [Pop] returned. *)
Inductive stack_op : Type :=
  | DoPush (x : Z)
  | DoPop.

Fixpoint play (ops : list stack_op) (st : stack)
  : stack * list (Z * option fatal) :=
  match ops with
  | [] => (st, [])
  | DoPush x :: ops' => play ops' (Push st x)
  | DoPop :: ops' =>
      let '(st', r) := Pop st in
      let '(st'', rs) := play ops' st' in
      (st'', r :: rs)
  end.

(** The reference the Go stack is compared with: a last-in-first-out store
    as a list whose head is the top; popping the empty store reports the
    error and leaves it empty. *)
Fixpoint lifo (ops : list stack_op) (l : list Z)
  : list Z * list (Z * option fatal) :=
  match ops with
  | [] => (l, [])
  | DoPush x :: ops' => lifo ops' (x :: l)
  | DoPop :: ops' =>
      match l with
      | [] => let '(l', rs) := lifo ops' [] in (l', (0, Some EmptyStack) :: rs)
      | x :: l0 => let '(l', rs) := lifo ops' l0 in (l', (x, None) :: rs)
      end
  end.

(** The loop continued [n] times from [st]; [None] if one of these
    iterations panics or leaves the loop. *)
Fixpoint iterate (n : nat) (st : vm) : option vm :=
  match n with
  | O => Some st
  | S n' =>
      match step st with
      | Ok (Continue st') => iterate n' st'
      | _ => None
      end
  end.

(** The number of operands of each opcode, as the opcode table of the
    specification lists it; it is also what the case of the opcode adds to
    [index] before the [index++] that closes the iteration. *)
Definition operand_count (op : Z) : Z :=
  match op with
  | 0 | 18 | 21 => 0
  | 2 | 3 | 6 | 17 | 19 | 20 => 1
  | 1 | 7 | 8 | 14 | 15 | 16 => 2
  | 4 | 5 | 9 | 10 | 11 | 12 | 13 => 3
  | _ => 0
  end.

(** The iterations that reach the bottom of the loop without assigning a
    jump target to [index]: every opcode but halt, jmp, call and ret, with
    jt and jf counted only when the jump is not taken. *)
Definition falls_through (registers : list Z) (op a : Z) : bool :=
  match op with
  | 1 | 2 | 3 | 4 | 5 | 9 | 10 | 11 | 12 | 13 | 14 | 15 | 16 | 19 | 20 | 21 => true
  | 7 => match getValue registers a with Ok v => v =? 0 | Panic _ => false end
  | 8 => match getValue registers a with Ok v => negb (v =? 0) | Panic _ => false end
  | _ => false
  end.

(** What every state at the loop head satisfies, relative to the program
    image the machine was booted with: eight registers holding 15-bit
    words, a stack of 16-bit words, and a memory whose cells either still
    hold the word of the image or hold a 15-bit word written since. *)
Definition cell_ok (w0 w : Z) : Prop := w = w0 \/ word15 w.

Record state_ok (image : list Z) (st : vm) : Prop := mkOk {
  ok_length : length (registers st) = 8%nat;
  ok_registers : Forall word15 (registers st);
  ok_stack : Forall word16 (s (stk st));
  ok_words : Forall word16 (program st);
  ok_cells : Forall2 cell_ok image (program st)
}.

(** The register write of [setRegister] on the machine state, once the
    destination is known to name a register. *)
Definition reg_write (st : vm) (a v : Z) : vm :=
  with_registers st (<[Z.to_nat (a - 32768) := v]> (registers st)).

(** The file format read by [readBinary], in the other direction: every
    word as two bytes, low byte first. *)
Definition byte_of (z : Z) : byte :=
  match Byte.of_N (Z.to_N z) with
  | Some b => b
  | None => x00
  end.

Definition encode_word (w : Z) : list byte := [byte_of (w mod 256); byte_of (w / 256)].

Definition encode_words (ws : list Z) : list byte := flat_map encode_word ws.


(** The opcodes whose case calls [setRegister], and those whose case calls
    [Push] or [Pop]. *)
Definition writes_registers (op : Z) : bool :=
  match op with
  | 1 | 3 | 4 | 5 | 9 | 10 | 11 | 12 | 13 | 14 | 15 | 20 => true
  | _ => false
  end.

Definition uses_stack (op : Z) : bool :=
  match op with
  | 2 | 3 | 17 | 18 => true
  | _ => false
  end.

(** What opcodes 9, 10, 12 and 13 compute from the two values, before the
    reduction modulo 32768. *)
Definition arith (op vb vc : Z) : Z :=
  match op with
  | 9 => vb + vc
  | 10 => vb * vc
  | 12 => Z.land vb vc
  | _ => Z.lor vb vc
  end.

(** ** Example machines *)

(** The three values the specification singles out, on a machine that
    runs [not r0 r1] from memory. *)
Definition not_machine (v : Z) : vm :=
  mkVM [0; v; 0; 0; 0; 0; 0; 0] newStack [14; 32768; 32769; 0; 0] 0 [] [] [].

(** A machine about to run [in r0], with a given line buffer and terminal. *)
Definition in_machine (buf : list byte) (term : terminal) : vm :=
  mkVM (replicate 8 0) newStack [20; 32768; 0; 0] 0 buf term [].

(** A program that jumps to a call placed at address 32766; the
    instruction after the call is at 32768.  The subroutine, at address 2,
    is a single ret. *)
Definition far_call_image : list Z :=
  [6; 32766; 18] ++ replicate (Z.to_nat 32763) 21 ++ [17; 2; 0; 0; 0].

(** A memory of 65536 words whose last word, at address 65535, is a call. *)
Definition top_call_image : list Z := replicate (Z.to_nat 65535) 21 ++ [17].

(** A call to a subroutine that returns at once. *)
Definition call_ret_image : list Z := [17; 4; 0; 0; 18; 0; 0; 0].

(** A memory of 65536 noops: the instruction pointer walks through all of
    it and then wraps around. *)
Definition noop_image : list Z := replicate (Z.to_nat 65536) 21.

Definition noop_at (i : Z) : vm := with_index (boot noop_image []) i.

(** Add 4 to register 1 into register 0, print register 0, halt. *)
Definition add_image : list Z := [9; 32768; 32769; 4; 19; 32768; 0; 0; 0; 0].

(** Add 32767 and 32767 into register 0. *)
Definition add_max_image : list Z := [9; 32768; 32767; 32767; 0; 0; 0].

(** Set register 0 to 7, then halt. *)
Definition set_image : list Z := [1; 32768; 7; 0; 0].

(** A program whose first instruction, wmem 3 5, overwrites the cell at
    address 3, which holds a register operand in the image. *)
Definition wmem_image : list Z := [16; 3; 5; 32768; 0; 0].

(** A file system in which every path opens the same file. *)
Definition one_file (file : list byte) : list byte -> option (list byte) :=
  fun _ => Some file.

(** Noop, then halt, with room for the operand reads. *)
Definition noop_halt_image : list Z := [21; 0; 0; 0; 0].

(** A machine about to run the instruction [op a b c], with registers 0, 1
    and 2 holding [r0], [r1] and [r2] and a given stack. *)
Definition instr_machine (op a b c r0 r1 r2 : Z) (k : list Z) : vm :=
  mkVM [r0; r1; r2; 0; 0; 0; 0; 0] (mkStack k) [op; a; b; c; 0; 0; 0] 0 [] [] [].

(** ** Proof automation *)

(** Case analysis on every call whose result an equation [H] about [exec]
    depends on. *)
Ltac crunch H :=
  repeat (simpl in H;
    match type of H with
    | context [mbind _ ?m] => destruct m eqn:?; simpl in H; try discriminate H
    | context [match ?m with _ => _ end] => destruct m eqn:?; simpl in H; try discriminate H
    | context [if ?m then _ else _] => destruct m eqn:?; simpl in H; try discriminate H
    end).

(** * Theorems *)

(** ** Words *)

Lemma u16_small z : word16 z -> u16 z = z.
Proof. unfold word16, u16. intros H. apply Z.mod_small. lia. Qed.

Lemma u16_range z : word16 (u16 z).
Proof. unfold word16, u16. apply Z.mod_pos_bound. lia. Qed.

Lemma mod15_range z : word15 (z mod 32768).
Proof. unfold word15. pose proof (Z.mod_pos_bound z 32768). lia. Qed.

(** Reducing a wrapped [uint16] result modulo 32768 is reducing the exact
    result: 32768 divides 65536. *)
Lemma u16_mod15 z : u16 z mod 32768 = z mod 32768.
Proof. unfold u16. apply Z.mod_mod_divide. exists 2. reflexivity. Qed.

Lemma word15_word16 z : word15 z -> word16 z.
Proof. unfold word15, word16. lia. Qed.

Lemma high_bits_clear x n : word16 x -> 16 <= n -> Z.testbit x n = false.
Proof.
  intros [Hlo Hhi] Hn.
  apply Z.testbit_false; [lia|].
  rewrite Z.div_small; [reflexivity|].
  split; [exact Hlo|].
  apply Z.lt_le_trans with (2 ^ 16); [exact Hhi|].
  apply Z.pow_le_mono_r; lia.
Qed.

(** The complement of a 16-bit word is its distance from 65535. *)
Lemma compl16_spec x : word16 x -> compl16 x = 65535 - x.
Proof.
  intros Hx. unfold compl16.
  assert (Hdisj : Z.land x (Z.lxor x 65535) = 0).
  { apply Z.bits_inj'. intros n Hn.
    rewrite Z.land_spec, Z.lxor_spec, Z.bits_0.
    destruct (Z.testbit x n) eqn:Hbit; [|reflexivity].
    change 65535 with (Z.ones 16).
    rewrite Z.testbit_ones_nonneg by lia.
    destruct (Z.ltb_spec n 16) as [Hlt|Hge]; [reflexivity|].
    rewrite (high_bits_clear x n Hx Hge) in Hbit. discriminate. }
  apply Z.add_nocarry_lxor in Hdisj.
  rewrite <- Z.lxor_assoc, Z.lxor_nilpotent, Z.lxor_0_l in Hdisj.
  lia.
Qed.

Lemma compl16_mod x : word15 x -> compl16 x mod 32768 = 32767 - x.
Proof.
  intros Hx. rewrite compl16_spec by (apply word15_word16; exact Hx).
  unfold word15 in Hx.
  replace (65535 - x) with ((32767 - x) + 1 * 32768) by lia.
  rewrite Z.mod_add by lia. apply Z.mod_small. lia.
Qed.

(** ** Slices *)

Lemma at_index_lookup sl i w :
  0 <= i -> sl !! Z.to_nat i = Some w -> at_index sl i = Ok w.
Proof.
  intros Hi Hw. unfold at_index.
  pose proof (lookup_lt_Some _ _ _ Hw) as Hlt.
  rewrite Hw.
  destruct (Z.leb_spec 0 i); [|lia].
  destruct (Z.ltb_spec i (Z.of_nat (length sl))); [reflexivity|lia].
Qed.

Lemma at_index_Ok sl i w :
  at_index sl i = Ok w ->
  0 <= i < Z.of_nat (length sl) /\ sl !! Z.to_nat i = Some w.
Proof.
  unfold at_index.
  destruct (Z.leb_spec 0 i); simpl; [|discriminate].
  destruct (Z.ltb_spec i (Z.of_nat (length sl))); [|discriminate].
  destruct (sl !! Z.to_nat i) eqn:E; [|discriminate].
  intros [= ->]. split; [lia|reflexivity].
Qed.

Lemma at_index_past sl i : Z.of_nat (length sl) <= i -> at_index sl i = Panic OutOfRange.
Proof.
  intros Hi. unfold at_index.
  destruct (Z.ltb_spec i (Z.of_nat (length sl))); [lia|].
  rewrite andb_false_r. reflexivity.
Qed.

Lemma store_Ok sl i v sl' :
  store sl i v = Ok sl' ->
  0 <= i < Z.of_nat (length sl) /\ sl' = <[Z.to_nat i := v]> sl.
Proof.
  unfold store.
  destruct (Z.leb_spec 0 i); simpl; [|discriminate].
  destruct (Z.ltb_spec i (Z.of_nat (length sl))); [|discriminate].
  intros [= <-]. split; [lia|reflexivity].
Qed.

Lemma store_in_range sl i v :
  0 <= i < Z.of_nat (length sl) -> store sl i v = Ok (<[Z.to_nat i := v]> sl).
Proof.
  intros Hi. unfold store.
  destruct (Z.leb_spec 0 i); [|lia].
  destruct (Z.ltb_spec i (Z.of_nat (length sl))); [reflexivity|lia].
Qed.

(** ** getValue *)

Lemma getValue_literal registers v : v < 32768 -> getValue registers v = Ok v.
Proof.
  intros Hv. unfold getValue.
  destruct (Z.ltb_spec v 32768); [reflexivity|lia].
Qed.

Lemma getValue_overflow registers v : 32776 <= v -> getValue registers v = Panic Overflow.
Proof.
  intros Hv. unfold getValue.
  destruct (Z.ltb_spec v 32768); [lia|].
  destruct (Z.gtb_spec v 32775); [reflexivity|lia].
Qed.

Lemma getValue_register registers v :
  32768 <= v <= 32775 ->
  getValue registers v = at_index registers (v - 32768).
Proof.
  intros Hv. unfold getValue.
  destruct (Z.ltb_spec v 32768); [lia|].
  destruct (Z.gtb_spec v 32775); [lia|].
  rewrite u16_small; [reflexivity|]. unfold word16. lia.
Qed.

(** C1: value resolution.  With the eight registers of [main], a raw word
    below 32768 resolves to itself, a word from 32768 to 32775 resolves to
    the current content of register [v - 32768], and every word from 32776
    upwards makes [getValue] panic with "overflow". *)
Theorem getValue_contract (registers : list Z) (v : Z) :
  length registers = 8%nat ->
  (v < 32768 -> getValue registers v = Ok v) /\
  (32768 <= v <= 32775 ->
     exists r, registers !! Z.to_nat (v - 32768) = Some r /\
               getValue registers v = Ok r) /\
  (32776 <= v -> getValue registers v = Panic Overflow).
Proof.
  intros Hlen. split; [apply getValue_literal|].
  split; [|apply getValue_overflow].
  intros Hv.
  destruct (lookup_lt_is_Some_2 registers (Z.to_nat (v - 32768))) as [r Hr];
    [lia|].
  exists r. split; [exact Hr|].
  rewrite getValue_register by exact Hv.
  apply at_index_lookup; [lia|exact Hr].
Qed.

Lemma getValue_contract_witness :
  getValue [11; 12; 13; 14; 15; 16; 17; 18] 32767 = Ok 32767 /\
  getValue [11; 12; 13; 14; 15; 16; 17; 18] 32770 = Ok 13 /\
  getValue [11; 12; 13; 14; 15; 16; 17; 18] 50000 = Panic Overflow.
Proof.
  split; [|split].
  - apply (getValue_contract [11; 12; 13; 14; 15; 16; 17; 18] 32767); [reflexivity|lia].
  - destruct (getValue_contract [11; 12; 13; 14; 15; 16; 17; 18] 32770 eq_refl)
      as (_ & Hreg & _).
    destruct (Hreg ltac:(lia)) as (r & Hr & Hget).
    vm_compute in Hr. injection Hr as <-. exact Hget.
  - apply (getValue_contract [11; 12; 13; 14; 15; 16; 17; 18] 50000); [reflexivity|lia].
Defined.

(** ** The stack *)

Lemma Pop_Push st x : Pop (Push st x) = (st, (x, None)).
Proof.
  destruct st as [l]. unfold Pop, Push. simpl.
  rewrite length_app, Nat.add_1_r.
  rewrite take_app_length, nth_middle. reflexivity.
Qed.

Lemma Pop_empty st : s st = [] -> Pop st = (st, (0, Some EmptyStack)).
Proof. intros H. unfold Pop. rewrite H. reflexivity. Qed.

Lemma push_all_snoc st xs x : push_all st (xs ++ [x]) = Push (push_all st xs) x.
Proof. unfold push_all. rewrite fold_left_app. reflexivity. Qed.

Lemma pop_n_push_all st xs :
  pop_n (length xs) (push_all st xs) = Some (st, rev xs).
Proof.
  induction xs as [|x xs IH] using rev_ind; [reflexivity|].
  rewrite length_app, Nat.add_1_r, push_all_snoc. simpl.
  rewrite Pop_Push, IH, rev_unit. reflexivity.
Qed.

Lemma play_lifo ops : forall st,
  lifo ops (rev (s st)) = (rev (s (fst (play ops st))), snd (play ops st)).
Proof.
  induction ops as [|[x|] ops IH]; intros st; simpl.
  - reflexivity.
  - rewrite <- IH. unfold Push. simpl. rewrite rev_unit. reflexivity.
  - destruct (rev (s st)) as [|x l0] eqn:Hrev.
    + assert (Hs : s st = []).
      { rewrite <- (rev_involutive (s st)), Hrev. reflexivity. }
      rewrite (Pop_empty st Hs).
      specialize (IH st). rewrite Hrev in IH. rewrite IH.
      destruct (play ops st). reflexivity.
    + assert (Hs : st = Push (mkStack (rev l0)) x).
      { destruct st as [l]. unfold Push. simpl in *. f_equal.
        rewrite <- (rev_involutive l), Hrev. reflexivity. }
      rewrite Hs, Pop_Push.
      specialize (IH (mkStack (rev l0))). simpl in IH.
      rewrite rev_involutive in IH. rewrite IH.
      destruct (play ops (mkStack (rev l0))). reflexivity.
Qed.

(** C9: the stack is last-in-first-out.  A [Push] followed at once by a
    [Pop] returns the pushed word without error and leaves the stack as it
    was; after pushing any words one by one, popping as many times returns
    them in reverse order and restores the stack; and on every sequence of
    pushes and pops the Go stack returns what a last-in-first-out store
    returns and ends with the same content. *)
Theorem stack_lifo (st : stack) (x : Z) (xs : list Z) (ops : list stack_op) :
  Pop (Push st x) = (st, (x, None)) /\
  pop_n (length xs) (push_all st xs) = Some (st, rev xs) /\
  lifo ops (rev (s st)) = (rev (s (fst (play ops st))), snd (play ops st)).
Proof.
  split; [apply Pop_Push|]. split; [apply pop_n_push_all|apply play_lifo].
Qed.

(** ** Fetching *)

Lemma step_exec st a b c op :
  operands st = Ok (a, b, c) ->
  at_index (program st) (index st) = Ok op ->
  step st = exec st op a b c.
Proof.
  intros Hops Hop. unfold step. rewrite Hops. simpl. rewrite Hop. reflexivity.
Qed.

Lemma step_inv st o :
  step st = Ok o ->
  exists a b c op,
    operands st = Ok (a, b, c) /\
    at_index (program st) (index st) = Ok op /\
    exec st op a b c = Ok o.
Proof.
  unfold step. intros H.
  destruct (operands st) as [[[a b] c]|e] eqn:Hops; [|discriminate].
  simpl in H.
  destruct (at_index (program st) (index st)) as [op|e] eqn:Hop; [|discriminate].
  exists a, b, c, op. auto.
Qed.

(** ** Registers *)

Lemma setRegister_literal registers a v :
  length registers = 8%nat -> 32768 <= a <= 32775 -> v < 32768 ->
  setRegister registers a v = Ok (<[Z.to_nat (a - 32768) := v]> registers).
Proof.
  intros Hlen Ha Hv. unfold setRegister.
  rewrite getValue_literal by exact Hv. simpl.
  rewrite u16_small by (unfold word16; lia).
  apply store_in_range. lia.
Qed.

(** C6: the 15-bit complement.  When opcode 14 is executed with a
    destination [a] that names a register and an operand [b] whose value
    [v] lies in [0, 32767], the iteration continues and the destination
    register then holds [32767 - v]; the other registers are unchanged. *)
Theorem not_stores_complement (st : vm) (a b c v : Z) :
  operands st = Ok (a, b, c) ->
  at_index (program st) (index st) = Ok 14 ->
  length (registers st) = 8%nat ->
  32768 <= a <= 32775 ->
  getValue (registers st) b = Ok v ->
  0 <= v <= 32767 ->
  exists st',
    step st = Ok (Continue st') /\
    registers st' = <[Z.to_nat (a - 32768) := 32767 - v]> (registers st) /\
    getValue (registers st') a = Ok (32767 - v).
Proof.
  intros Hops Hop Hlen Ha Hb Hv.
  rewrite (step_exec st a b c 14 Hops Hop). unfold exec.
  rewrite Hb. simpl.
  rewrite compl16_mod by exact Hv.
  rewrite setRegister_literal by (try assumption; lia). simpl.
  eexists. split; [reflexivity|]. simpl. split; [reflexivity|].
  rewrite getValue_register by exact Ha.
  apply at_index_lookup; [lia|].
  apply list_lookup_insert_eq. lia.
Qed.

Lemma not_stores_complement_witness :
  (exists st', step (not_machine 0) = Ok (Continue st') /\
     getValue (registers st') 32768 = Ok 32767) /\
  (exists st', step (not_machine 32767) = Ok (Continue st') /\
     getValue (registers st') 32768 = Ok 0) /\
  (exists st', step (not_machine 21845) = Ok (Continue st') /\
     getValue (registers st') 32768 = Ok 10922).
Proof.
  split; [|split].
  - destruct (not_stores_complement (not_machine 0) 32768 32769 0 0)
      as (st' & Hstep & _ & Hget);
      [reflexivity|reflexivity|reflexivity|lia|reflexivity|lia|].
    exists st'. split; [exact Hstep|exact Hget].
  - destruct (not_stores_complement (not_machine 32767) 32768 32769 0 32767)
      as (st' & Hstep & _ & Hget);
      [reflexivity|reflexivity|reflexivity|lia|reflexivity|lia|].
    exists st'. split; [exact Hstep|exact Hget].
  - destruct (not_stores_complement (not_machine 21845) 32768 32769 0 21845)
      as (st' & Hstep & _ & Hget);
      [reflexivity|reflexivity|reflexivity|lia|reflexivity|lia|].
    exists st'. split; [exact Hstep|exact Hget].
Defined.

(** ** Empty stack *)

(** C5: the two ways of meeting an empty stack.  Once the operands are
    fetched, opcode 3 on an empty stack panics with the error of [Pop], and
    the run ends with that panic; opcode 18 on an empty stack leaves the
    loop by [break VM] with the state untouched, and the run ends normally;
    the two ends of the run are different results. *)
Theorem empty_stack_pop_vs_ret (st3 st18 : vm) (a b c a' b' c' : Z) :
  operands st3 = Ok (a, b, c) ->
  at_index (program st3) (index st3) = Ok 3 ->
  s (stk st3) = [] ->
  operands st18 = Ok (a', b', c') ->
  at_index (program st18) (index st18) = Ok 18 ->
  s (stk st18) = [] ->
  step st3 = Panic EmptyStack /\
  step st18 = Ok (Break st18) /\
  (forall n, run (S n) st3 = Some (Panic EmptyStack)) /\
  (forall n, run (S n) st18 = Some (Ok st18)) /\
  (forall n m, run (S n) st3 <> run (S m) st18).
Proof.
  intros Hops3 Hop3 He3 Hops18 Hop18 He18.
  assert (H3 : step st3 = Panic EmptyStack).
  { rewrite (step_exec _ _ _ _ _ Hops3 Hop3). unfold exec.
    rewrite (Pop_empty _ He3). reflexivity. }
  assert (H18 : step st18 = Ok (Break st18)).
  { rewrite (step_exec _ _ _ _ _ Hops18 Hop18). unfold exec.
    rewrite (Pop_empty _ He18). reflexivity. }
  repeat split; try assumption.
  - intros n. simpl. rewrite H3. reflexivity.
  - intros n. simpl. rewrite H18. reflexivity.
  - intros n m. simpl. rewrite H3, H18. discriminate.
Qed.

Lemma empty_stack_pop_vs_ret_witness :
  step (boot [3; 32768; 0; 0] []) = Panic EmptyStack /\
  step (boot [18] []) = Ok (Break (boot [18] [])).
Proof.
  destruct (empty_stack_pop_vs_ret (boot [3; 32768; 0; 0] []) (boot [18] [])
              32768 0 0 0 0 0) as (H3 & H18 & _);
    [reflexivity|reflexivity|reflexivity|reflexivity|reflexivity|reflexivity|].
  split; [exact H3|exact H18].
Defined.

(** ** Division *)




(** ** Terminal input *)

Lemma char_code_range ch : 0 <= char_code ch <= 255.
Proof.
  unfold char_code. pose proof (Byte.to_N_bounded ch). lia.
Qed.

Lemma getValue_char_code registers ch :
  getValue registers (char_code ch) = Ok (char_code ch).
Proof. apply getValue_literal. pose proof (char_code_range ch). lia. Qed.

(** [cut_after] cuts after the first delimiter. *)
Lemma cut_after_line d (body more : list byte) :
  ~ In d body ->
  cut_after d (body ++ d :: more) = Some (body ++ [d], more).
Proof.
  induction body as [|ch body IH]; intros Hnot; simpl.
  - rewrite (@Byte.byte_dec_lb d d eq_refl). reflexivity.
  - destruct (Byte.eqb ch d) eqn:E.
    + apply Byte.byte_dec_bl in E. subst ch. exfalso. apply Hnot. left. reflexivity.
    + rewrite IH; [reflexivity|]. intros Hin. apply Hnot. right. exact Hin.
Qed.

Lemma cut_after_Some d l : forall line rest,
  cut_after d l = Some (line, rest) ->
  exists body, line = body ++ [d] /\ ~ In d body /\ l = line ++ rest.
Proof.
  induction l as [|ch l IH]; intros line rest; simpl; [discriminate|].
  destruct (Byte.eqb ch d) eqn:E.
  - apply Byte.byte_dec_bl in E. subst ch. intros [= <- <-].
    exists []. split; [reflexivity|]. split; [intros []|reflexivity].
  - destruct (cut_after d l) as [[line' rest']|]; [|discriminate].
    intros [= <- <-].
    destruct (IH line' rest' eq_refl) as (body & -> & Hnot & ->).
    exists (ch :: body). split; [reflexivity|]. split; [|reflexivity].
    intros [Heq|Hin]; [|exact (Hnot Hin)].
    subst ch. rewrite (@Byte.byte_dec_lb d d eq_refl) in E. discriminate.
Qed.

Lemma cut_after_None d l : cut_after d l = None <-> ~ In d l.
Proof.
  induction l as [|ch l IH]; simpl.
  - split; [intros _ []|reflexivity].
  - destruct (Byte.eqb ch d) eqn:E.
    + apply Byte.byte_dec_bl in E. subst ch.
      split; [discriminate|]. intros Hnot. exfalso. apply Hnot. left. reflexivity.
    + apply Byte.eqb_false in E.
      destruct (cut_after d l) as [[line rest]|].
      * split; [discriminate|]. intros Hnot. exfalso.
        assert (Hl : ~ In d l) by (intros Hin; apply Hnot; right; exact Hin).
        apply IH in Hl. discriminate.
      * split; [|reflexivity]. intros _ [Heq|Hin]; [congruence|].
        destruct IH as [IH _]. exact (IH eq_refl Hin).
Qed.

Lemma defaultBufSize_pos : (0 < defaultBufSize)%nat.
Proof. unfold defaultBufSize. apply Nat.lt_0_succ. Qed.

(** What a [Read] returns was the front of the terminal. *)
Lemma os_Read_front room src got src' :
  os_Read room src = Some (got, src') -> concat src = got ++ concat src'.
Proof.
  destruct src as [|[|ch chunk] rest]; simpl; try discriminate.
  intros [= <- <-].
  assert (Hrest : concat (match drop room (ch :: chunk) with
                            | [] => rest
                            | more => more :: rest
                            end) = drop room (ch :: chunk) ++ concat rest)
    by (destruct (drop room (ch :: chunk)); reflexivity).
  rewrite Hrest, app_assoc, take_drop. reflexivity.
Qed.

Lemma os_Read_progress room src got src' :
  (0 < room)%nat ->
  os_Read room src = Some (got, src') ->
  (length (concat src') < length (concat src))%nat /\
  (Forall (fun chunk => chunk <> []) src ->
   Forall (fun chunk => chunk <> []) src').
Proof.
  intros Hroom Hread.
  pose proof (os_Read_front _ _ _ _ Hread) as Hfront.
  destruct src as [|[|ch chunk] rest]; simpl in Hread; try discriminate.
  injection Hread as <- <-. split.
  - rewrite Hfront, length_app.
    destruct room as [|room]; [lia|]. simpl. lia.
  - intros Hall. apply Forall_cons in Hall as [_ Hall].
    destruct (drop room (ch :: chunk)) eqn:Hdrop; [exact Hall|].
    constructor; [discriminate|exact Hall].
Qed.

Lemma os_Read_available room src :
  (0 < room)%nat ->
  Forall (fun chunk => chunk <> []) src -> src <> [] ->
  exists got src', os_Read room src = Some (got, src').
Proof.
  intros Hroom Hall Hsrc.
  destruct src as [|[|ch chunk] rest]; [contradiction| |simpl; eauto].
  apply Forall_cons in Hall as [Habs _]. contradiction.
Qed.

Lemma read_line_S n d full buf src :
  read_line (S n) d full buf src =
  match os_Read (defaultBufSize - length buf)%nat src with
  | None => None
  | Some (got, src') =>
      match cut_after d (buf ++ got) with
      | Some (line, _) => Some (full ++ line, src')
      | None =>
          if (defaultBufSize <=? length (buf ++ got))%nat
          then read_line n d (full ++ buf ++ got) [] src'
          else read_line n d full (buf ++ got) src'
      end
  end.
Proof. reflexivity. Qed.

(** What the reader returns is a line, and the terminal is consumed from
    its front: the line, then what the dropped reader had read ahead. *)
Lemma read_line_Some d fuel : forall full buf src line src',
  ~ In d full -> ~ In d buf ->
  read_line fuel d full buf src = Some (line, src') ->
  exists body lost,
    line = body ++ [d] /\ ~ In d body /\
    full ++ buf ++ concat src = line ++ lost ++ concat src'.
Proof.
  induction fuel as [|n IH]; intros full buf src line src' Hfull Hbuf;
    [discriminate|].
  rewrite read_line_S.
  destruct (os_Read (defaultBufSize - length buf)%nat src) as [[got src1]|] eqn:Hread;
    [|discriminate].
  apply os_Read_front in Hread. rewrite Hread.
  destruct (cut_after d (buf ++ got)) as [[l r]|] eqn:Hcut.
  - intros [= <- <-].
    destruct (cut_after_Some _ _ _ _ Hcut) as (body & -> & Hbody & Hsplit).
    exists (full ++ body), r. split; [rewrite app_assoc; reflexivity|].
    split.
    + intros Hin. apply in_app_or in Hin as [Hin|Hin]; [exact (Hfull Hin)|exact (Hbody Hin)].
    + rewrite (app_assoc buf got), Hsplit. rewrite <- !app_assoc. reflexivity.
  - apply cut_after_None in Hcut.
    destruct (defaultBufSize <=? length (buf ++ got))%nat; intros Hrec.
    + assert (Hfull' : ~ In d (full ++ buf ++ got)).
      { intros Hin. apply in_app_or in Hin as [Hin|Hin];
          [exact (Hfull Hin)|exact (Hcut Hin)]. }
      destruct (IH (full ++ buf ++ got) [] src1 line src' Hfull' (fun H => H) Hrec)
        as (body & lost & Hline & Hbody & Heq).
      exists body, lost. split; [exact Hline|]. split; [exact Hbody|].
      rewrite <- Heq. simpl. rewrite <- !app_assoc. reflexivity.
    + destruct (IH _ _ _ _ _ Hfull Hcut Hrec) as (body & lost & Hline & Hbody & Heq).
      exists body, lost. split; [exact Hline|]. split; [exact Hbody|].
      rewrite <- Heq. rewrite <- !app_assoc. reflexivity.
Qed.

Lemma ReadString_Some d src line src' :
  ReadString d src = Some (line, src') ->
  exists body lost,
    line = body ++ [d] /\ ~ In d body /\ concat src = line ++ lost ++ concat src'.
Proof.
  intros H. exact (read_line_Some d _ [] [] src line src' (fun x => x) (fun x => x) H).
Qed.

Lemma ReadString_None d src : ~ In d (concat src) -> ReadString d src = None.
Proof.
  intros Hnot. destruct (ReadString d src) as [[line src']|] eqn:H; [|reflexivity].
  destruct (ReadString_Some _ _ _ _ H) as (body & lost & -> & _ & Heq).
  exfalso. apply Hnot. rewrite Heq.
  apply in_or_app. left. apply in_or_app. right. left. reflexivity.
Qed.

(** The fuel of [ReadString] is enough: when no read comes back empty and a
    [delim] is still to come, a line is returned. *)
Lemma read_line_complete d fuel : forall full buf src,
  (length (concat src) < fuel)%nat ->
  (length buf < defaultBufSize)%nat ->
  Forall (fun chunk => chunk <> []) src ->
  In d (concat src) ->
  exists r, read_line fuel d full buf src = Some r.
Proof.
  induction fuel as [|n IH]; intros full buf src Hfuel Hbuf Hall Hin; [lia|].
  rewrite read_line_S.
  assert (Hroom : (0 < defaultBufSize - length buf)%nat) by lia.
  assert (Hsrc : src <> []) by (intros ->; destruct Hin).
  destruct (os_Read_available _ src Hroom Hall Hsrc) as (got & src1 & Hread).
  rewrite Hread.
  destruct (os_Read_progress _ _ _ _ Hroom Hread) as [Hless Hall1].
  specialize (Hall1 Hall).
  apply os_Read_front in Hread.
  destruct (cut_after d (buf ++ got)) as [[l r]|] eqn:Hcut; [eauto|].
  apply cut_after_None in Hcut.
  assert (Hin1 : In d (concat src1)).
  { rewrite Hread in Hin. apply in_app_or in Hin as [Hgot|Hrest]; [|exact Hrest].
    exfalso. apply Hcut. apply in_or_app. right. exact Hgot. }
  destruct (defaultBufSize <=? length (buf ++ got))%nat eqn:Hfull.
  - apply IH; [lia|exact defaultBufSize_pos|exact Hall1|exact Hin1].
  - apply Nat.leb_gt in Hfull. apply IH; [lia|exact Hfull|exact Hall1|exact Hin1].
Qed.

Lemma ReadString_complete d src :
  Forall (fun chunk => chunk <> []) src ->
  In d (concat src) ->
  exists line src', ReadString d src = Some (line, src').
Proof.
  intros Hall Hin.
  destruct (read_line_complete d (S (length (concat src))) [] [] src)
    as [[line src'] H]; [lia|exact defaultBufSize_pos|exact Hall|exact Hin|].
  exists line, src'. exact H.
Qed.

(** A terminal that hands over one line per read loses nothing. *)
Lemma ReadString_one_line d (body : list byte) (more : terminal) :
  ~ In d body ->
  (length (body ++ [d]) <= defaultBufSize)%nat ->
  ReadString d ((body ++ [d]) :: more) = Some (body ++ [d], more).
Proof.
  intros Hnot Hfit. unfold ReadString. rewrite read_line_S.
  change (length (@nil byte)) with 0%nat. rewrite Nat.sub_0_r.
  change ([] ++ ?x) with x.
  destruct (body ++ [d]) as [|ch tl] eqn:Hchunk;
    [destruct body; discriminate Hchunk|].
  unfold os_Read.
  rewrite take_ge, drop_ge by exact Hfit.
  change ([] ++ ch :: tl) with (ch :: tl). rewrite <- Hchunk.
  change (body ++ [d]) with (body ++ d :: []).
  rewrite (cut_after_line d body [] Hnot). reflexivity.
Qed.

(** C8: opcode 20.  With a destination [a] that names a register:
    when the line buffer holds [ch :: rest], nothing is read from the
    terminal, [ch] leaves the buffer and its code is stored in the
    register; when the buffer is empty, the prompt is written, one whole
    line (up to and including the first newline) is read from the
    terminal into the buffer, and its first character is consumed in the
    same way.  The line is returned whenever a newline is still to come
    and no read comes back empty; the terminal is consumed from its
    front, beyond the line by what the reader of that line had read
    ahead, which is nothing when the terminal hands over one line per
    read.  The code passes through [getValue] before [setRegister], which
    returns it unchanged. *)
Theorem in_reads_one_character (st : vm) (a b c : Z) :
  operands st = Ok (a, b, c) ->
  at_index (program st) (index st) = Ok 20 ->
  length (registers st) = 8%nat ->
  32768 <= a <= 32775 ->
  (forall ch rest, input st = ch :: rest ->
     exists st',
       step st = Ok (Continue st') /\
       input st' = rest /\ stdin st' = stdin st /\ output st' = output st /\
       registers st' = <[Z.to_nat (a - 32768) := char_code ch]> (registers st) /\
       getValue (registers st') a = Ok (char_code ch)) /\
  (forall line src',
     input st = [] ->
     ReadString newline (stdin st) = Some (line, src') ->
     exists body lost ch rest,
       line = body ++ [newline] /\ ~ In newline body /\
       concat (stdin st) = line ++ lost ++ concat src' /\
       line = ch :: rest /\
       exists st',
         step st = Ok (Continue st') /\
         input st' = rest /\ stdin st' = src' /\
         output st' = output st ++ [Prompt] /\
         registers st' = <[Z.to_nat (a - 32768) := char_code ch]> (registers st) /\
         getValue (registers st') a = Ok (char_code ch)) /\
  (Forall (fun chunk => chunk <> []) (stdin st) ->
   In newline (concat (stdin st)) ->
   exists line src', ReadString newline (stdin st) = Some (line, src')) /\
  (forall body more,
     stdin st = (body ++ [newline]) :: more -> ~ In newline body ->
     (length (body ++ [newline]) <= defaultBufSize)%nat ->
     ReadString newline (stdin st) = Some (body ++ [newline], more)) /\
  (forall ch, getValue (registers st) (char_code ch) = Ok (char_code ch)).
Proof.
  intros Hops Hop Hlen Ha.
  assert (Hreg : forall r x, length r = 8%nat ->
            getValue (<[Z.to_nat (a - 32768) := x]> r) a = Ok x).
  { intros r x Hr. rewrite getValue_register by exact Ha.
    apply at_index_lookup; [lia|]. apply list_lookup_insert_eq. lia. }
  assert (Hcode : forall ch, char_code ch < 32768).
  { intros ch. pose proof (char_code_range ch). lia. }
  split; [|split; [|split; [|split]]].
  - intros ch rest Hin.
    rewrite (step_exec _ _ _ _ _ Hops Hop). unfold exec, refill.
    rewrite Hin. simpl. rewrite Hin.
    rewrite getValue_char_code. simpl.
    rewrite setRegister_literal by (try assumption; apply Hcode). simpl.
    eexists. split; [reflexivity|]. simpl.
    repeat split. apply Hreg, Hlen.
  - intros line src' Hin Hread.
    destruct (ReadString_Some _ _ _ _ Hread) as (body & lost & Hline & Hbody & Hfront).
    assert (Hcons : exists ch rest, line = ch :: rest).
    { rewrite Hline. destruct body as [|x body]; simpl; eauto. }
    destruct Hcons as (ch & rest & Hcons).
    exists body, lost, ch, rest.
    split; [exact Hline|]. split; [exact Hbody|]. split; [exact Hfront|].
    split; [exact Hcons|].
    rewrite (step_exec _ _ _ _ _ Hops Hop). unfold exec, refill.
    rewrite Hin, Hread. rewrite Hcons. simpl.
    rewrite getValue_char_code. simpl.
    rewrite setRegister_literal by (try assumption; apply Hcode). simpl.
    eexists. split; [reflexivity|]. simpl.
    repeat split. apply Hreg, Hlen.
  - apply ReadString_complete.
  - intros body more -> Hnot Hfit. apply ReadString_one_line; assumption.
  - intros ch. apply getValue_char_code.
Qed.

Lemma in_reads_one_character_witness :
  (exists st', step (in_machine [x41; x0a] [[x42; x0a]]) = Ok (Continue st') /\
     input st' = [x0a] /\ stdin st' = [[x42; x0a]] /\ output st' = [] /\
     getValue (registers st') 32768 = Ok 65) /\
  (exists st', step (in_machine [] [[x41; x0a]; [x42; x0a]]) = Ok (Continue st') /\
     input st' = [x0a] /\ stdin st' = [[x42; x0a]] /\ output st' = [Prompt] /\
     getValue (registers st') 32768 = Ok 65) /\
  (exists st', step (in_machine [] [[x41; x0a; x42; x0a]]) = Ok (Continue st') /\
     input st' = [x0a] /\ stdin st' = [] /\ output st' = [Prompt] /\
     getValue (registers st') 32768 = Ok 65).
Proof.
  split; [|split].
  - destruct (in_reads_one_character (in_machine [x41; x0a] [[x42; x0a]]) 32768 0 0)
      as (Hbuf & _); [reflexivity|reflexivity|reflexivity|lia|].
    destruct (Hbuf x41 [x0a] eq_refl) as (st' & Hstep & Hi & Hs & Ho & _ & Hget).
    exists st'. repeat split; assumption.
  - destruct (in_reads_one_character (in_machine [] [[x41; x0a]; [x42; x0a]]) 32768 0 0)
      as (_ & Hline & _); [reflexivity|reflexivity|reflexivity|lia|].
    destruct (Hline [x41; x0a] [[x42; x0a]] eq_refl eq_refl)
      as (body & lost & ch & rest & _ & _ & _ & Hcons & st' & Hstep & Hi & Hs & Ho & _ & Hget).
    injection Hcons as <- <-.
    exists st'. repeat split; assumption.
  - destruct (in_reads_one_character (in_machine [] [[x41; x0a; x42; x0a]]) 32768 0 0)
      as (_ & Hline & _); [reflexivity|reflexivity|reflexivity|lia|].
    destruct (Hline [x41; x0a] [] eq_refl eq_refl)
      as (body & lost & ch & rest & _ & _ & _ & Hcons & st' & Hstep & Hi & Hs & Ho & _ & Hget).
    injection Hcons as <- <-.
    exists st'. repeat split; assumption.
Defined.

(** ** Operand fetch at the end of memory *)

Lemma length16_small st :
  Z.of_nat (length (program st)) < 65536 ->
  length16 st = Z.of_nat (length (program st)).
Proof. intros H. apply u16_small. unfold word16. lia. Qed.

(** When even [index+1] is past the end, the three operands are zero. *)
Lemma operands_padded (st : vm) :
  0 <= index st < 65535 ->
  Z.of_nat (length (program st)) < 65536 ->
  Z.of_nat (length (program st)) <= index st + 1 ->
  operands st = Ok (0, 0, 0).
Proof.
  intros Hi Hlen Hend. unfold operands.
  rewrite length16_small by exact Hlen.
  assert (Hguard : (u16 (index st + 1) <? Z.of_nat (length (program st))) = false).
  { apply Z.ltb_ge. unfold u16. rewrite Z.mod_small by lia. exact Hend. }
  rewrite Hguard. reflexivity.
Qed.

(** C3: operand fetch close to the end of memory.  The guard of all three
    reads tests [index+1] only, so when [index+1] is still inside the
    program but [index+2] or [index+3] is not, the read of that operand is
    an index out of range: the iteration panics instead of taking 0. *)
Theorem operands_near_end_panic (st : vm) :
  0 <= index st ->
  Z.of_nat (length (program st)) < 65536 ->
  index st + 1 < Z.of_nat (length (program st)) ->
  Z.of_nat (length (program st)) <= index st + 3 ->
  operands st = Panic OutOfRange /\ step st = Panic OutOfRange.
Proof.
  intros Hi Hlen Hin Hend.
  assert (Hops : operands st = Panic OutOfRange).
  { unfold operands.
    rewrite length16_small by exact Hlen.
    rewrite (u16_small (index st + 1)) by (unfold word16; lia).
    destruct (Z.ltb_spec (index st + 1) (Z.of_nat (length (program st))));
      [|lia].
    destruct (lookup_lt_is_Some_2 (program st) (Z.to_nat (index st + 1)))
      as [a Ha]; [lia|].
    rewrite (at_index_lookup _ (index st + 1) _ ltac:(lia) Ha). simpl.
    destruct (Z.lt_ge_cases (index st + 2) (Z.of_nat (length (program st))))
      as [Hb|Hb].
    - destruct (lookup_lt_is_Some_2 (program st) (Z.to_nat (index st + 2)))
        as [b Hb']; [lia|].
      rewrite (u16_small (index st + 2)) by (unfold word16; lia).
      rewrite (at_index_lookup _ (index st + 2) _ ltac:(lia) Hb'). simpl.
      rewrite (u16_small (index st + 3)) by (unfold word16; lia).
      rewrite (at_index_past _ (index st + 3)) by lia. reflexivity.
    - rewrite (u16_small (index st + 2)) by (unfold word16; lia).
      rewrite (at_index_past _ (index st + 2)) by lia. reflexivity. }
  split; [exact Hops|].
  unfold step. rewrite Hops. reflexivity.
Qed.

Lemma operands_near_end_panic_witness :
  step (boot [21; 0] []) = Panic OutOfRange /\
  step (boot [19; 65; 0] []) = Panic OutOfRange.
Proof.
  split.
  - apply (operands_near_end_panic (boot [21; 0] [])); simpl; lia.
  - apply (operands_near_end_panic (boot [19; 65; 0] [])); simpl; lia.
Defined.

(** ** Call and return *)

Lemma u16_pred_succ v : word16 v -> u16 (u16 (v - 1) + 1) = v.
Proof.
  intros Hv. unfold u16. rewrite Zplus_mod_idemp_l.
  replace (v - 1 + 1) with v by lia. apply Z.mod_small. exact Hv.
Qed.

(** The claim of C7 fails when the return address is not a literal word:
    the run of [far_call_image] is jmp, call, ret; the call, at 32766, pushes
    32768, and ret resolves that word as register 0, so control goes to
    address 0 and not to the instruction after the call. *)
Lemma call_ret_far_return_address :
  index <$> iterate 1 (boot far_call_image []) = Some 32766 /\
  (fun st => at_index (program st) (index st)) <$> iterate 1 (boot far_call_image [])
    = Some (Ok 17) /\
  (fun st => (index st, s (stk st))) <$> iterate 2 (boot far_call_image [])
    = Some (2, [32766 + 2]) /\
  (fun st => at_index (program st) (index st)) <$> iterate 2 (boot far_call_image [])
    = Some (Ok 18) /\
  (fun st => (index st, s (stk st))) <$> iterate 3 (boot far_call_image [])
    = Some (0, []) /\
  0 <> 32766 + 2.
Proof. repeat split; try (vm_compute; reflexivity). lia. Qed.

(** At the top of the address space the pushed address wraps around: the
    call at 65535 pushes 1. *)
Lemma call_at_top_pushes_wrapped_address :
  (fun st => (index st, s (stk st)))
    <$> iterate 1 (with_index (boot top_call_image []) 65535) = Some (0, [1]) /\
  u16 (65535 + 2) = 1.
Proof. split; vm_compute; reflexivity. Qed.

(** C7, amended: call and return.  A call at address [p] whose operand
    resolves pushes [p + 2] reduced modulo 65536, which is [p + 2], the
    address of the instruction after the call, whenever that is below
    65536, and continues at the value of its operand.  Provided the return
    address [p + 2] is a literal word (below 32768), a ret executed in any
    later state whose stack is the one the call left pops that address,
    continues at [p + 2] and leaves the stack as it was before the
    call. *)
Theorem call_ret_round_trip (st : vm) (a b c va : Z) :
  operands st = Ok (a, b, c) ->
  at_index (program st) (index st) = Ok 17 ->
  getValue (registers st) a = Ok va ->
  exists st1,
    step st = Ok (Continue st1) /\
    stk st1 = Push (stk st) (u16 (index st + 2)) /\
    index st1 = u16 va /\
    (word16 va -> index st1 = va) /\
    (0 <= index st -> index st + 2 < 65536 ->
     stk st1 = Push (stk st) (index st + 2)) /\
    (0 <= index st -> index st + 2 < 32768 ->
     forall st2 a2 b2 c2,
       stk st2 = stk st1 ->
       operands st2 = Ok (a2, b2, c2) ->
       at_index (program st2) (index st2) = Ok 18 ->
       exists st3,
         step st2 = Ok (Continue st3) /\
         index st3 = index st + 2 /\
         stk st3 = stk st).
Proof.
  intros Hops Hop Ha.
  rewrite (step_exec _ _ _ _ _ Hops Hop). unfold exec. simpl.
  rewrite Ha. simpl.
  eexists. split; [reflexivity|]. simpl.
  split; [reflexivity|].
  assert (Hland : u16 (u16 (va - 1) + 1) = u16 va).
  { unfold u16. rewrite Zplus_mod_idemp_l. f_equal. lia. }
  split; [exact Hland|].
  split; [intros Hva; rewrite Hland; apply u16_small; exact Hva|].
  split.
  { intros Hi Htop. rewrite u16_small by (unfold word16; lia). reflexivity. }
  intros Hi Hret st2 a2 b2 c2 Hstk Hops2 Hop2.
  rewrite (step_exec _ _ _ _ _ Hops2 Hop2). unfold exec.
  rewrite Hstk, Pop_Push.
  rewrite (u16_small (index st + 2)) by (unfold word16; lia).
  rewrite getValue_literal by exact Hret. simpl.
  eexists. split; [reflexivity|]. simpl.
  split; [|reflexivity].
  apply u16_pred_succ. unfold word16. lia.
Qed.

Lemma call_ret_round_trip_witness :
  exists st1 st3,
    step (boot call_ret_image []) = Ok (Continue st1) /\
    index st1 = 4 /\ s (stk st1) = [2] /\
    step st1 = Ok (Continue st3) /\
    index st3 = 2 /\ s (stk st3) = [].
Proof.
  destruct (call_ret_round_trip (boot call_ret_image []) 4 0 0 4)
    as (st1 & Hstep & _ & _ & Hidx & Hstk & Hback);
    [reflexivity|reflexivity|reflexivity|].
  specialize (Hidx ltac:(unfold word16; lia)).
  specialize (Hstk ltac:(simpl; lia) ltac:(simpl; lia)).
  specialize (Hback ltac:(simpl; lia) ltac:(simpl; lia)).
  assert (Hst1 : st1 =
    mkVM (replicate 8 0) (mkStack [2]) call_ret_image 4 [] [] []).
  { vm_compute in Hstep. injection Hstep as <-. reflexivity. }
  destruct (Hback st1 0 0 0 eq_refl) as (st3 & Hstep3 & Hidx3 & Hstk3).
  - rewrite Hst1. reflexivity.
  - rewrite Hst1. reflexivity.
  - exists st1, st3. rewrite Hstk3. rewrite Hstk in *.
    repeat split; try assumption; reflexivity.
Defined.

(** ** The instruction pointer *)

Lemma refill_frame st st1 :
  refill st = Ok st1 ->
  registers st1 = registers st /\ stk st1 = stk st /\
  program st1 = program st /\ index st1 = index st.
Proof.
  unfold refill. intros H.
  destruct (input st); [|injection H as <-; auto].
  destruct (ReadString newline (stdin st)) as [[line rest]|]; [|discriminate].
  injection H as <-. auto.
Qed.

Lemma advance_twice st k :
  index (advance (advance st k) 1) = (index st + k + 1) mod 65536.
Proof. simpl. unfold u16. rewrite Zplus_mod_idemp_l. reflexivity. Qed.

Lemma exec_falls_through (st st' : vm) (a b c op : Z) :
  falls_through (registers st) op a = true ->
  exec st op a b c = Ok (Continue st') ->
  index st' = (index st + operand_count op + 1) mod 65536.
Proof.
  intros Hft Hstep.
  destruct op as [|p|p]; simpl in Hft; try discriminate Hft;
  do 5 (try (destruct p as [p|p|]; simpl in Hft; try discriminate Hft)).
  all: unfold exec, binary in Hstep.
  all: crunch Hstep.
  all: try (injection Hstep as <-).
  all: try (rewrite advance_twice; reflexivity).
  all: try (rewrite Hft in *; discriminate).
  all: try (simpl; unfold u16; rewrite Z.add_0_r; reflexivity).
  - apply refill_frame in Heqr as (_ & _ & _ & Hidx).
    rewrite advance_twice. simpl. rewrite Hidx. reflexivity.
  - discriminate Hft.
Qed.

(** C4 fails for halt: [break VM] leaves the loop before [index++], so the
    instruction pointer keeps its value instead of moving one word on. *)
Lemma halt_keeps_index :
  step (boot [0] []) = Ok (Break (boot [0] [])) /\
  index (boot [0] []) = 0 /\
  index (boot [0] []) <> 0 + operand_count 0 + 1.
Proof. repeat split. discriminate. Qed.

Lemma noop_step i :
  0 <= i < 65536 -> step (noop_at i) = Ok (Continue (noop_at (u16 (i + 1)))).
Proof.
  intros Hi.
  assert (Hlen : length noop_image = Z.to_nat 65536).
  { unfold noop_image. apply length_replicate. }
  assert (Hops : operands (noop_at i) = Ok (0, 0, 0)).
  { unfold operands, length16.
    change (program (noop_at i)) with noop_image.
    rewrite Hlen, Z2Nat.id by lia.
    change (u16 65536) with 0.
    destruct (Z.ltb_spec (u16 (index (noop_at i) + 1)) 0) as [Hneg|_];
      [|reflexivity].
    pose proof (u16_range (index (noop_at i) + 1)) as Hr.
    unfold word16 in Hr. lia. }
  assert (Hop : at_index (program (noop_at i)) (index (noop_at i)) = Ok 21).
  { change (program (noop_at i)) with noop_image.
    change (index (noop_at i)) with i.
    apply at_index_lookup; [lia|].
    unfold noop_image. apply lookup_replicate_2. lia. }
  rewrite (step_exec _ _ _ _ _ Hops Hop). reflexivity.
Qed.

Lemma noop_reachable (k : nat) :
  Z.of_nat k <= 65535 -> reachable noop_image [] (noop_at (Z.of_nat k)).
Proof.
  induction k as [|k IH]; intros Hk.
  - apply reach_boot.
  - apply reach_step with (noop_at (Z.of_nat k)); [apply IH; lia|].
    rewrite noop_step by lia.
    rewrite u16_small by (unfold word16; lia).
    do 3 f_equal. lia.
Qed.

(** C4 also fails at the top of the address space: the noop at 65535 is
    reached by the run of [noop_image], and the [index++] after it wraps
    around to 0. *)
Lemma noop_wraps_index :
  reachable noop_image [] (noop_at 65535) /\
  step (noop_at 65535) = Ok (Continue (noop_at 0)) /\
  index (noop_at 0) <> 65535 + operand_count 21 + 1.
Proof.
  split; [apply (noop_reachable (Z.to_nat 65535)); lia|].
  split; [apply (noop_step 65535); lia|].
  discriminate.
Qed.

(** C4, amended: the advance of the instruction pointer.  Halt leaves the
    loop with the instruction pointer unchanged.  For every other opcode
    that does not assign a jump target (set, push, pop, eq, gt, add, mult,
    mod, and, or, not, rmem, wmem, out, in, noop, and jt and jf when the
    jump is not taken), an iteration that completes leaves the instruction
    pointer at its previous value plus the operand count plus one, reduced
    modulo 65536; below the top of the address space that is the plain
    sum. *)
Theorem ip_advance (st st' : vm) (a b c op : Z) :
  operands st = Ok (a, b, c) ->
  at_index (program st) (index st) = Ok op ->
  (op = 0 -> step st = Ok (Break st)) /\
  (falls_through (registers st) op a = true ->
   step st = Ok (Continue st') ->
   index st' = (index st + operand_count op + 1) mod 65536 /\
   (0 <= index st -> index st + operand_count op + 1 < 65536 ->
    index st' = index st + operand_count op + 1)).
Proof.
  intros Hops Hop. rewrite (step_exec _ _ _ _ _ Hops Hop).
  split; [intros ->; reflexivity|].
  intros Hft Hstep.
  pose proof (exec_falls_through _ _ _ _ _ _ Hft Hstep) as Hidx.
  split; [exact Hidx|].
  intros Hlo Hhi. rewrite Hidx. apply Z.mod_small.
  assert (0 <= operand_count op).
  { destruct op as [|p|p]; [simpl; lia| |simpl; lia].
    do 5 (try (destruct p as [p|p|]; try (simpl; lia))). }
  lia.
Qed.

Lemma ip_advance_witness :
  exists st', step (boot add_image []) = Ok (Continue st') /\ index st' = 4.
Proof.
  exists (mkVM [4; 0; 0; 0; 0; 0; 0; 0] newStack add_image 4 [] [] []).
  split; [reflexivity|].
  destruct (ip_advance (boot add_image [])
              (mkVM [4; 0; 0; 0; 0; 0; 0; 0] newStack add_image 4 [] [] [])
              32768 32769 4 9 eq_refl eq_refl) as [_ H].
  destruct (H eq_refl eq_refl) as [_ Hplain].
  rewrite (Hplain ltac:(simpl; lia) ltac:(simpl; lia)). reflexivity.
Defined.

(** ** The storage invariant *)

Lemma at_index_Forall (P : Z -> Prop) sl i w :
  Forall P sl -> at_index sl i = Ok w -> P w.
Proof.
  intros Hall Hw. apply at_index_Ok in Hw as [_ Hw].
  exact (Forall_lookup_1 _ _ _ _ Hall Hw).
Qed.

Lemma getValue_word15 registers v r :
  Forall word15 registers -> 0 <= v ->
  getValue registers v = Ok r -> word15 r.
Proof.
  intros Hregs Hv. unfold getValue.
  destruct (Z.ltb_spec v 32768).
  - intros [= <-]. unfold word15. lia.
  - destruct (v >? 32775); [discriminate|].
    apply at_index_Forall. exact Hregs.
Qed.

Lemma setRegister_word15 registers a v r :
  Forall word15 registers -> 0 <= v ->
  setRegister registers a v = Ok r ->
  Forall word15 r /\ length r = length registers.
Proof.
  intros Hregs Hv. unfold setRegister.
  destruct (getValue registers v) as [x|e] eqn:Hx; simpl; [|discriminate].
  intros Hst. apply store_Ok in Hst as [_ ->].
  split; [|apply length_insert].
  apply Forall_insert; [exact Hregs|].
  exact (getValue_word15 _ _ _ Hregs Hv Hx).
Qed.

Lemma operands_word16 st a b c :
  Forall word16 (program st) -> operands st = Ok (a, b, c) ->
  word16 a /\ word16 b /\ word16 c.
Proof.
  intros Hall. unfold operands.
  assert (Hz : word16 0) by (unfold word16; lia).
  destruct (u16 (index st + 1) <? length16 st); simpl.
  - destruct (at_index (program st) (u16 (index st + 1))) eqn:Ha; [|discriminate].
    simpl.
    destruct (at_index (program st) (u16 (index st + 2))) eqn:Hb; [|discriminate].
    simpl.
    destruct (at_index (program st) (u16 (index st + 3))) eqn:Hc; [|discriminate].
    simpl. intros [= <- <- <-].
    repeat split; eapply (at_index_Forall word16); eassumption.
  - intros [= <- <- <-]. auto.
Qed.

Lemma Pop_word16 st st' v :
  Forall word16 (s st) -> Pop st = (st', (v, None)) ->
  Forall word16 (s st') /\ word16 v.
Proof.
  intros Hall. unfold Pop.
  destruct (length (s st)) as [|l1] eqn:Hlen; [discriminate|].
  intros [= <- <-]. simpl. split.
  - apply Forall_take. exact Hall.
  - destruct (nth_lookup_or_length (s st) l1 0) as [Hl|Hl]; [|lia].
    exact (Forall_lookup_1 _ _ _ _ Hall Hl).
Qed.

Lemma cells_insert image p i v :
  Forall2 cell_ok image p -> word15 v -> Forall2 cell_ok image (<[i := v]> p).
Proof.
  intros Hcells Hv. revert i.
  induction Hcells as [|w0 w image p Hw Hcells IH]; intros i; [constructor|].
  destruct i as [|i]; simpl.
  - constructor; [right; exact Hv|exact Hcells].
  - constructor; [exact Hw|apply IH].
Qed.

Ltac open_words :=
  repeat match goal with
  | H : word15 _ |- _ => unfold word15 in H
  | H : word16 _ |- _ => unfold word16 in H
  | H : (_ =? _) = false |- _ => apply Z.eqb_neq in H
  end.

Ltac nonneg :=
  open_words;
  first
    [ lia
    | match goal with |- 0 <= _ mod _ => apply Z.mod_pos_bound; lia end
    | match goal with |- 0 <= (if ?t then _ else _) => destruct t; lia end
    | match goal with |- 0 <= char_code ?ch => pose proof (char_code_range ch); lia end ].

(** Forward reasoning from the equations that [crunch] leaves behind. *)
Ltac learn :=
  repeat match goal with
  | H : refill ?st = Ok ?st1 |- _ =>
      apply refill_frame in H as (?Hr & ?Hs & ?Hp & _);
      rewrite ?Hr, ?Hs, ?Hp in *
  | H : Pop ?k = (_, (_, None)), Hk : Forall word16 (s ?k) |- _ =>
      apply (Pop_word16 _ _ _ Hk) in H as [? ?]
  | H : at_index ?p _ = Ok _, Hp : Forall word16 ?p |- _ =>
      apply (at_index_Forall word16 _ _ _ Hp) in H
  | H : getValue ?r ?v = Ok _, Hr : Forall word15 ?r |- _ =>
      apply (getValue_word15 r v _ Hr ltac:(nonneg)) in H
  | H : setRegister ?r _ ?v = Ok _, Hr : Forall word15 ?r |- _ =>
      apply (setRegister_word15 r _ v _ Hr ltac:(nonneg)) in H as [? ?]
  | H : store _ _ _ = Ok _ |- _ =>
      apply store_Ok in H as [_ ->]
  end.

Lemma exec_preserves image st st' op a b c :
  state_ok image st -> word16 a -> word16 b -> word16 c ->
  exec st op a b c = Ok (Continue st') ->
  state_ok image st'.
Proof.
  intros [Hlen Hregs Hstack Hwords Hcells] Ha Hb Hc Hstep.
  destruct op as [|p|p]; try discriminate Hstep;
  do 5 (try (destruct p as [p|p|]; try discriminate Hstep)).
  all: unfold exec, binary in Hstep.
  all: crunch Hstep.
  all: try (injection Hstep as <-).
  all: learn.
  all: constructor; simpl; try assumption; try congruence.
  - apply Forall_app. split; [assumption|].
    repeat constructor; apply u16_range.
  - apply Forall_insert; [assumption|]. apply word15_word16. assumption.
  - apply cells_insert; assumption.
  - apply Forall_app. split; [assumption|].
    repeat constructor; apply word15_word16; assumption.
Qed.

Lemma step_preserves image st st' :
  state_ok image st -> step st = Ok (Continue st') -> state_ok image st'.
Proof.
  intros Hok Hstep.
  apply step_inv in Hstep as (a & b & c & op & Hops & _ & Hexec).
  destruct (operands_word16 st a b c (ok_words _ _ Hok) Hops) as (Ha & Hb & Hc).
  exact (exec_preserves image st st' op a b c Hok Ha Hb Hc Hexec).
Qed.

Lemma boot_ok image term : Forall word16 image -> state_ok image (boot image term).
Proof.
  intros Himage. constructor; simpl.
  - reflexivity.
  - repeat constructor; unfold word15; lia.
  - constructor.
  - exact Himage.
  - apply Forall2_same_length_lookup_2; [reflexivity|].
    intros i x y Hx Hy. left. congruence.
Qed.

Lemma reachable_ok image term st :
  Forall word16 image -> reachable image term st -> state_ok image st.
Proof.
  intros Himage Hreach.
  induction Hreach as [|st st' _ IH Hstep]; [apply boot_ok; exact Himage|].
  exact (step_preserves image st st' IH Hstep).
Qed.

Lemma reg_write_step st a v k :
  length (registers st) = 8%nat -> 32768 <= a <= 32775 -> v < 32768 ->
  (r ← setRegister (registers st) a v;
   loop_end (advance (with_registers st r) k))
  = Ok (Continue (advance (advance (reg_write st a v) k) 1)).
Proof.
  intros Hlen Ha Hv.
  rewrite (setRegister_literal _ _ _ Hlen Ha Hv). reflexivity.
Qed.

Lemma binary_stores st a b c f vb vc :
  length (registers st) = 8%nat -> 32768 <= a <= 32775 ->
  getValue (registers st) b = Ok vb ->
  getValue (registers st) c = Ok vc ->
  f vb vc < 32768 ->
  binary st a b c f = Ok (Continue (advance (advance (reg_write st a (f vb vc)) 3) 1)).
Proof.
  intros Hlen Ha Hb Hc Hf. unfold binary. rewrite Hb. simpl. rewrite Hc. simpl.
  apply reg_write_step; assumption.
Qed.

(** C2 fails for memory: the cells of the program image hold any 16-bit
    word, and the operands that name registers stay in memory while the
    machine runs.  After the first iteration of this program (set r0 to 7),
    cell 1 still holds 32768. *)
Lemma memory_cell_above_15_bits :
  exists st,
    step (boot set_image []) = Ok (Continue st) /\
    reachable set_image [] st /\
    program st !! 1%nat = Some 32768 /\
    ~ Forall word15 (program st).
Proof.
  eexists. split; [reflexivity|].
  split; [apply reach_step with (boot set_image []); [apply reach_boot|reflexivity]|].
  split; [reflexivity|].
  intros Hall.
  pose proof (Forall_lookup_1 _ _ 1%nat 32768 Hall eq_refl) as H.
  unfold word15 in H. lia.
Qed.

(** C2, amended: the storage invariant.  In every state the loop reaches
    from a program image of 16-bit words, there are eight registers and
    each holds a value in [0, 32767], never a register address; every
    memory cell either still holds the word of the image or holds a value
    in [0, 32767] that the machine wrote; and when such a state executes
    add, mult, and or or with a destination that names a register and
    operands that resolve, whatever their values, the iteration continues
    and the destination register then holds the result of the operation
    reduced modulo 32768, a value in [0, 32767]. *)
Theorem storage_invariant (image : list Z) (term : terminal) (st : vm) :
  Forall word16 image ->
  reachable image term st ->
  length (registers st) = 8%nat /\
  Forall word15 (registers st) /\
  (forall r, r ∈ registers st -> ~ 32768 <= r <= 32775) /\
  Forall2 cell_ok image (program st) /\
  (forall a b c op vb vc,
     operands st = Ok (a, b, c) ->
     at_index (program st) (index st) = Ok op ->
     op = 9 \/ op = 10 \/ op = 12 \/ op = 13 ->
     32768 <= a <= 32775 ->
     getValue (registers st) b = Ok vb ->
     getValue (registers st) c = Ok vc ->
     exists st' r,
       step st = Ok (Continue st') /\
       registers st' !! Z.to_nat (a - 32768) = Some r /\
       r = arith op vb vc mod 32768 /\
       word15 r).
Proof.
  intros Himage Hreach.
  destruct (reachable_ok image term st Himage Hreach)
    as [Hlen Hregs _ _ Hcells].
  split; [exact Hlen|]. split; [exact Hregs|].
  split.
  { intros r Hr. rewrite Forall_forall in Hregs.
    specialize (Hregs r Hr). unfold word15 in Hregs. lia. }
  split; [exact Hcells|].
  intros a b c op vb vc Hops Hop Hwhich Ha Hb Hc.
  assert (Hstored : forall f,
            f vb vc = arith op vb vc mod 32768 ->
            binary st a b c f
            = Ok (Continue (advance (advance
                 (reg_write st a (arith op vb vc mod 32768)) 3) 1))).
  { intros f Hf. rewrite (binary_stores st a b c f vb vc Hlen Ha Hb Hc).
    - rewrite Hf. reflexivity.
    - rewrite Hf. pose proof (mod15_range (arith op vb vc)) as H.
      unfold word15 in H. lia. }
  exists (advance (advance (reg_write st a (arith op vb vc mod 32768)) 3) 1),
         (arith op vb vc mod 32768).
  split.
  { rewrite (step_exec _ _ _ _ _ Hops Hop).
    destruct Hwhich as [-> | [-> | [-> | ->]]]; unfold exec; apply Hstored;
      simpl; try apply u16_mod15; reflexivity. }
  split; [simpl; apply list_lookup_insert_eq; lia|].
  split; [reflexivity|apply mod15_range].
Qed.

Lemma storage_invariant_witness :
  (exists st,
     step (boot wmem_image []) = Ok (Continue st) /\
     program st = [16; 3; 5; 5; 0; 0] /\
     Forall word15 (registers st) /\
     Forall2 cell_ok wmem_image (program st)) /\
  (exists st',
     step (boot add_max_image []) = Ok (Continue st') /\
     registers st' !! 0%nat = Some 32766).
Proof.
  split.
  - exists (mkVM (replicate 8 0) newStack [16; 3; 5; 5; 0; 0] 3 [] [] []).
    split; [reflexivity|]. split; [reflexivity|].
    destruct (storage_invariant wmem_image []
                (mkVM (replicate 8 0) newStack [16; 3; 5; 5; 0; 0] 3 [] [] []))
      as (_ & Hregs & _ & Hcells & _).
    + repeat constructor; unfold word16; lia.
    + apply reach_step with (boot wmem_image []); [apply reach_boot|reflexivity].
    + split; [exact Hregs|exact Hcells].
  - destruct (storage_invariant add_max_image [] (boot add_max_image []))
      as (_ & _ & _ & _ & Harith).
    + repeat constructor; unfold word16; lia.
    + apply reach_boot.
    + destruct (Harith 32768 32767 32767 9 32767 32767)
        as (st' & r & Hstep & Hreg & Hr & _);
        [reflexivity|reflexivity|left; reflexivity|lia|reflexivity|reflexivity|].
      exists st'. split; [exact Hstep|]. subst r. exact Hreg.
Defined.

(** * Further properties of the code *)

(** ** Registers *)

(** X1: writing a register and reading it back.  With the eight registers
    of [main] and a destination that names a register, [setRegister]
    succeeds whenever its source resolves; afterwards the destination
    resolves to the resolved source, the bank still has eight registers,
    and every other register resolves as before. *)
Theorem setRegister_then_getValue (registers : list Z) (a v r : Z) :
  length registers = 8%nat ->
  32768 <= a <= 32775 ->
  getValue registers v = Ok r ->
  exists registers',
    setRegister registers a v = Ok registers' /\
    getValue registers' a = Ok r /\
    length registers' = 8%nat /\
    forall a', 32768 <= a' <= 32775 -> a' <> a ->
      getValue registers' a' = getValue registers a'.
Proof.
  intros Hlen Ha Hv. unfold setRegister. rewrite Hv. simpl.
  rewrite u16_small by (unfold word16; lia).
  rewrite store_in_range by lia.
  eexists. split; [reflexivity|].
  split.
  { rewrite getValue_register by exact Ha.
    apply at_index_lookup; [lia|]. apply list_lookup_insert_eq. lia. }
  split; [rewrite length_insert; exact Hlen|].
  intros a' Ha' Hne.
  rewrite !getValue_register by exact Ha'.
  unfold at_index. rewrite length_insert.
  rewrite list_lookup_insert_ne by lia. reflexivity.
Qed.

Lemma setRegister_then_getValue_witness :
  exists registers',
    setRegister [11; 12; 13; 14; 15; 16; 17; 18] 32770 32775 = Ok registers' /\
    getValue registers' 32770 = Ok 18 /\
    getValue registers' 32775 = Ok 18.
Proof.
  destruct (setRegister_then_getValue [11; 12; 13; 14; 15; 16; 17; 18] 32770 32775 18)
    as (registers' & Hset & Hget & _ & Hothers);
    [reflexivity|lia|reflexivity|].
  exists registers'. split; [exact Hset|]. split; [exact Hget|].
  rewrite (Hothers 32775) by lia. reflexivity.
Defined.

Lemma getValue_resolves registers v :
  length registers = 8%nat -> v <= 32775 -> exists r, getValue registers v = Ok r.
Proof.
  intros Hlen Hv.
  destruct (Z.lt_ge_cases v 32768) as [Hlit|Hreg].
  - exists v. apply getValue_literal. exact Hlit.
  - destruct (lookup_lt_is_Some_2 registers (Z.to_nat (v - 32768))) as [r Hr];
      [lia|].
    exists r. rewrite getValue_register by lia.
    apply at_index_lookup; [lia|exact Hr].
Qed.

(** X2: how [setRegister] fails.  A source word from 32776 on is an
    overflow panic whatever the destination is; with a source that
    resolves, a 16-bit destination outside 32768..32775 is an index out of
    range, for small destinations because [register-32768] wraps around to
    a large index.  No register is written in either case. *)
Theorem setRegister_failures (registers : list Z) (a v : Z) :
  length registers = 8%nat ->
  word16 a ->
  (32776 <= v -> setRegister registers a v = Panic Overflow) /\
  (v <= 32775 -> ~ 32768 <= a <= 32775 ->
     setRegister registers a v = Panic OutOfRange).
Proof.
  intros Hlen Ha. split.
  - intros Hv. unfold setRegister. rewrite getValue_overflow by exact Hv.
    reflexivity.
  - intros Hv Hbad. unfold setRegister.
    destruct (getValue_resolves registers v Hlen Hv) as [r ->]. simpl.
    unfold store.
    assert (Hidx : 8 <= u16 (a - 32768)).
    { unfold u16, word16 in *.
      destruct (Z.lt_ge_cases a 32768).
      - replace (a - 32768) with (a + 32768 + (-1) * 65536) by lia.
        rewrite Z.mod_add by lia. rewrite Z.mod_small by lia. lia.
      - rewrite Z.mod_small by lia. lia. }
    rewrite Hlen.
    destruct (Z.ltb_spec (u16 (a - 32768)) (Z.of_nat 8)); [lia|].
    rewrite andb_false_r. reflexivity.
Qed.

Lemma setRegister_failures_witness :
  setRegister [11; 12; 13; 14; 15; 16; 17; 18] 32770 40000 = Panic Overflow /\
  setRegister [11; 12; 13; 14; 15; 16; 17; 18] 5 7 = Panic OutOfRange /\
  setRegister [11; 12; 13; 14; 15; 16; 17; 18] 32776 7 = Panic OutOfRange.
Proof.
  split; [|split].
  - apply (setRegister_failures [11; 12; 13; 14; 15; 16; 17; 18] 32770 40000);
      [reflexivity|unfold word16; lia|lia].
  - apply (setRegister_failures [11; 12; 13; 14; 15; 16; 17; 18] 5 7);
      [reflexivity|unfold word16; lia|lia|lia].
  - apply (setRegister_failures [11; 12; 13; 14; 15; 16; 17; 18] 32776 7);
      [reflexivity|unfold word16; lia|lia|lia].
Defined.

(** X3: resolution is one level deep.  When the registers hold 15-bit
    words, a value that [getValue] returned for a 16-bit word resolves to
    itself, so the second resolution that [setRegister] applies to an
    already resolved value (opcodes 3, 9 to 15 and 20) stores that value
    unchanged. *)
Theorem getValue_idempotent (registers : list Z) (a v r : Z) :
  Forall word15 registers ->
  0 <= v ->
  getValue registers v = Ok r ->
  getValue registers r = Ok r /\
  setRegister registers a r = store registers (u16 (a - 32768)) r.
Proof.
  intros Hregs Hv Hr.
  pose proof (getValue_word15 registers v r Hregs Hv Hr) as Hw.
  assert (Hlit : getValue registers r = Ok r).
  { apply getValue_literal. unfold word15 in Hw. lia. }
  split; [exact Hlit|].
  unfold setRegister. rewrite Hlit. reflexivity.
Qed.

Lemma getValue_idempotent_witness :
  getValue [11; 12; 13; 14; 15; 16; 17; 18] 13 = Ok 13 /\
  setRegister [11; 12; 13; 14; 15; 16; 17; 18] 32768 13
    = Ok [13; 12; 13; 14; 15; 16; 17; 18].
Proof.
  destruct (getValue_idempotent [11; 12; 13; 14; 15; 16; 17; 18] 32768 32770 13)
    as [Hget Hset].
  - repeat constructor; unfold word15; lia.
  - lia.
  - reflexivity.
  - split; [exact Hget|]. rewrite Hset. reflexivity.
Defined.

(** ** Loading the program *)

Lemma list_pair_ind {A : Type} (P : list A -> Prop) :
  P [] -> (forall x, P [x]) ->
  (forall x y l, P l -> P (x :: y :: l)) ->
  forall l, P l.
Proof.
  intros Hnil Hone Hstep l.
  assert (H : P l /\ forall x, P (x :: l)).
  { induction l as [|y l [IH1 IH2]]; [split; [exact Hnil|exact Hone]|].
    split; [apply IH2|]. intros x. apply Hstep. exact IH1. }
  exact (proj1 H).
Qed.

Lemma bits_above (k x n : Z) : 0 <= x < 2 ^ k -> 0 <= k <= n -> Z.testbit x n = false.
Proof.
  intros [Hlo Hhi] Hn.
  apply Z.testbit_false; [lia|].
  rewrite Z.div_small; [reflexivity|].
  split; [exact Hlo|].
  apply Z.lt_le_trans with (2 ^ k); [exact Hhi|].
  apply Z.pow_le_mono_r; lia.
Qed.

(** The word read from two bytes is the first plus 256 times the second. *)
Lemma LittleEndian_Uint16_value b0 b1 :
  LittleEndian_Uint16 b0 b1 = char_code b0 + 256 * char_code b1.
Proof.
  unfold LittleEndian_Uint16.
  pose proof (char_code_range b0) as H0.
  assert (Hdisj : Z.land (char_code b0) (Z.shiftl (char_code b1) 8) = 0).
  { apply Z.bits_inj'. intros n Hn.
    rewrite Z.land_spec, Z.bits_0.
    destruct (Z.lt_ge_cases n 8) as [Hlt|Hge].
    - rewrite (Z.shiftl_spec_low _ _ _ Hlt). apply andb_false_r.
    - rewrite (bits_above 8 (char_code b0) n); [reflexivity| |lia].
      change (2 ^ 8) with 256. lia. }
  rewrite <- (Z.lxor_lor _ _ Hdisj), <- (Z.add_nocarry_lxor _ _ Hdisj).
  rewrite Z.shiftl_mul_pow2 by lia. change (2 ^ 8) with 256. lia.
Qed.

Lemma LittleEndian_Uint16_range b0 b1 : word16 (LittleEndian_Uint16 b0 b1).
Proof.
  rewrite LittleEndian_Uint16_value.
  pose proof (char_code_range b0). pose proof (char_code_range b1).
  unfold word16. lia.
Qed.

(** The accumulator of the loop is a prefix of its result. *)
Lemma read_words_acc file : forall program,
  read_words file program =
  match read_words file [] with
  | Loaded ws => Loaded (program ++ ws)
  | LoadPanic e => LoadPanic e
  end.
Proof.
  induction file as [| x | b0 b1 rest IH] using list_pair_ind; intros program.
  - simpl. rewrite app_nil_r. reflexivity.
  - reflexivity.
  - simpl. rewrite (IH (program ++ _)), (IH [_]).
    destruct (read_words rest []); [|reflexivity].
    rewrite <- app_assoc. reflexivity.
Qed.

Lemma read_words_cons b0 b1 rest :
  read_words (b0 :: b1 :: rest) [] =
  match read_words rest [] with
  | Loaded ws => Loaded (LittleEndian_Uint16 b0 b1 :: ws)
  | LoadPanic e => LoadPanic e
  end.
Proof. simpl. rewrite read_words_acc. reflexivity. Qed.

(** X4: which files load.  A file with an even number of bytes loads as a
    program of half as many words; a file with an odd number of bytes is a
    panic: the last byte is not dropped.  The empty file loads as the empty
    program. *)
Theorem readBinary_even_odd (fs : list byte -> option (list byte))
  (path file : list byte) :
  fs path = Some file ->
  (Nat.even (length file) = true ->
     exists program, readBinary fs path = Loaded program /\
                     length file = (2 * length program)%nat) /\
  (Nat.even (length file) = false ->
     readBinary fs path = LoadPanic UnexpectedEOF).
Proof.
  intros Hfile. unfold readBinary. rewrite Hfile. clear Hfile.
  induction file as [| x | b0 b1 rest [IHeven IHodd]] using list_pair_ind.
  - split; [|discriminate]. intros _. exists []. split; reflexivity.
  - split; [discriminate|]. reflexivity.
  - rewrite read_words_cons. change (length (b0 :: b1 :: rest)) with (S (S (length rest))).
    change (Nat.even (S (S (length rest)))) with (Nat.even (length rest)).
    split.
    + intros Heven. destruct (IHeven Heven) as (program & -> & Hlen).
      eexists. split; [reflexivity|]. simpl. lia.
    + intros Hodd. rewrite (IHodd Hodd). reflexivity.
Qed.

Lemma readBinary_even_odd_witness :
  readBinary (fun _ => Some [x15; x00; x00; x80]) challenge_bin = Loaded [21; 32768] /\
  readBinary (fun _ => Some [x15; x00; x00]) challenge_bin = LoadPanic UnexpectedEOF.
Proof.
  split.
  - destruct (readBinary_even_odd (fun _ => Some [x15; x00; x00; x80])
                challenge_bin [x15; x00; x00; x80] eq_refl) as [Heven _].
    destruct (Heven eq_refl) as (program & Hload & _).
    rewrite Hload. vm_compute in Hload. injection Hload as <-. reflexivity.
  - apply (readBinary_even_odd (fun _ => Some [x15; x00; x00])
             challenge_bin [x15; x00; x00] eq_refl). reflexivity.
Defined.

Lemma char_code_byte_of z : 0 <= z < 256 -> char_code (byte_of z) = z.
Proof.
  intros Hz. unfold char_code, byte_of.
  destruct (Byte.of_N (Z.to_N z)) as [b|] eqn:E.
  - apply Byte.to_of_N in E. rewrite E. lia.
  - apply Byte.of_N_None_iff in E. lia.
Qed.

Lemma byte_of_char_code b : byte_of (char_code b) = b.
Proof.
  unfold char_code, byte_of. rewrite N2Z.id, Byte.of_to_N. reflexivity.
Qed.

Lemma decode_encode_word w :
  word16 w ->
  LittleEndian_Uint16 (byte_of (w mod 256)) (byte_of (w / 256)) = w.
Proof.
  intros Hw. unfold word16 in Hw.
  rewrite LittleEndian_Uint16_value.
  rewrite !char_code_byte_of.
  - pose proof (Z.div_mod w 256 ltac:(lia)). lia.
  - split; [apply Z.div_pos; lia|]. apply Z.div_lt_upper_bound; lia.
  - apply Z.mod_pos_bound. lia.
Qed.

Lemma encode_decode_word b0 b1 : encode_word (LittleEndian_Uint16 b0 b1) = [b0; b1].
Proof.
  unfold encode_word. rewrite LittleEndian_Uint16_value.
  pose proof (char_code_range b0). pose proof (char_code_range b1).
  replace ((char_code b0 + 256 * char_code b1) mod 256) with (char_code b0).
  - replace ((char_code b0 + 256 * char_code b1) / 256) with (char_code b1).
    + rewrite !byte_of_char_code. reflexivity.
    + replace (char_code b0 + 256 * char_code b1)
        with (char_code b1 * 256 + char_code b0) by lia.
      rewrite Z.div_add_l by lia. rewrite Z.div_small by lia. lia.
  - replace (char_code b0 + 256 * char_code b1)
      with (char_code b0 + char_code b1 * 256) by lia.
    rewrite Z.mod_add by lia. symmetry. apply Z.mod_small. lia.
Qed.

Lemma read_words_encode ws :
  Forall word16 ws -> read_words (encode_words ws) [] = Loaded ws.
Proof.
  induction 1 as [|w ws Hw _ IH]; [reflexivity|].
  change (encode_words (w :: ws))
    with (byte_of (w mod 256) :: byte_of (w / 256) :: encode_words ws).
  rewrite read_words_cons, IH, (decode_encode_word w Hw). reflexivity.
Qed.

Lemma read_words_decode file : forall program,
  read_words file [] = Loaded program ->
  encode_words program = file /\ Forall word16 program.
Proof.
  induction file as [| x | b0 b1 rest IH] using list_pair_ind; intros program.
  - intros [= <-]. split; [reflexivity|constructor].
  - discriminate.
  - rewrite read_words_cons.
    destruct (read_words rest []) as [ws|e]; [|discriminate].
    intros [= <-]. destruct (IH ws eq_refl) as [Henc Hall]. split.
    + change (encode_words (LittleEndian_Uint16 b0 b1 :: ws))
        with (encode_word (LittleEndian_Uint16 b0 b1) ++ encode_words ws).
      rewrite encode_decode_word, Henc. reflexivity.
    + constructor; [apply LittleEndian_Uint16_range|exact Hall].
Qed.

(** X5: loading inverts the file format.  The file made of the two bytes
    of each word of a program, low byte first, loads as that program, for
    every program of 16-bit words; and whatever a file loads as, it
    consists of 16-bit words and writing these words out gives the file
    back, byte for byte. *)
Theorem readBinary_round_trip (fs : list byte -> option (list byte))
  (path file : list byte) :
  fs path = Some file ->
  (forall ws, Forall word16 ws -> file = encode_words ws ->
     readBinary fs path = Loaded ws) /\
  (forall program, readBinary fs path = Loaded program ->
     encode_words program = file /\ Forall word16 program).
Proof.
  intros Hfile. unfold readBinary. rewrite Hfile. split.
  - intros ws Hws ->. apply read_words_encode. exact Hws.
  - apply read_words_decode.
Qed.

Lemma readBinary_round_trip_witness :
  readBinary (fun _ => Some (encode_words [19; 65; 32775; 65535])) challenge_bin
    = Loaded [19; 65; 32775; 65535] /\
  encode_words [19; 65; 32775; 65535] = [x13; x00; x41; x00; x07; x80; xff; xff].
Proof.
  destruct (readBinary_round_trip
              (fun _ => Some (encode_words [19; 65; 32775; 65535]))
              challenge_bin (encode_words [19; 65; 32775; 65535]) eq_refl)
    as [Hload _].
  split; [|reflexivity].
  apply Hload; [|reflexivity].
  repeat constructor; unfold word16; lia.
Defined.

(** ** Clean termination *)

Lemma Pop_error k k' v e : Pop k = (k', (v, Some e)) -> s k = [] /\ k' = k.
Proof.
  unfold Pop. destruct (length (s k)) eqn:Hlen; [|discriminate].
  intros [= <- _ _]. split; [|reflexivity].
  destruct (s k); [reflexivity|discriminate].
Qed.


Lemma exec_break st op a b c st' :
  exec st op a b c = Ok (Break st') ->
  st' = st /\ (op = 0 \/ (op = 18 /\ s (stk st) = [])).
Proof.
  intros Hstep.
  destruct op as [|p|p]; try discriminate Hstep;
  do 5 (try (destruct p as [p|p|]; try discriminate Hstep)).
  all: unfold exec, binary in Hstep.
  all: crunch Hstep.
  all: try discriminate Hstep.
  all: injection Hstep as <-.
  all: split; [reflexivity|].
  all: first
    [ left; reflexivity
    | right; split; [reflexivity|];
      match goal with
      | H : Pop _ = _ |- _ => apply Pop_error in H as [H _]; exact H
      end ].
Qed.

Lemma break_state st st' : step st = Ok (Break st') -> st' = st.
Proof.
  intros Hstep. apply step_inv in Hstep as (a & b & c & op & _ & _ & Hexec).
  apply exec_break in Hexec as [-> _]. reflexivity.
Qed.

(** X6: how the loop is left without a panic.  An iteration leaves the
    loop only on opcode 0, or on opcode 18 with an empty stack, and it
    leaves the whole state as it found it: registers, stack, memory,
    instruction pointer, line buffer and terminal. *)
Theorem break_only_halt_or_empty_ret (st st' : vm) :
  step st = Ok (Break st') ->
  st' = st /\
  exists op, at_index (program st) (index st) = Ok op /\
             (op = 0 \/ (op = 18 /\ s (stk st) = [])).
Proof.
  intros Hstep.
  apply step_inv in Hstep as (a & b & c & op & _ & Hop & Hexec).
  apply exec_break in Hexec as [-> Hwhich].
  split; [reflexivity|]. exists op. split; [exact Hop|exact Hwhich].
Qed.

Lemma break_only_halt_or_empty_ret_witness :
  exists op, at_index (program (boot [18] [])) 0 = Ok op /\
             (op = 0 \/ (op = 18 /\ s (stk (boot [18] [])) = [])).
Proof.
  destruct (break_only_halt_or_empty_ret (boot [18] []) (boot [18] []) eq_refl)
    as [_ H].
  exact H.
Defined.

(** ** The whole of [main] *)

Lemma exec_index_word16 st op a b c st' :
  exec st op a b c = Ok (Continue st') -> word16 (index st').
Proof.
  intros Hstep.
  destruct op as [|p|p]; try discriminate Hstep;
  do 5 (try (destruct p as [p|p|]; try discriminate Hstep)).
  all: unfold exec, binary in Hstep.
  all: crunch Hstep.
  all: try discriminate Hstep.
  all: injection Hstep as <-.
  all: apply u16_range.
Qed.

Lemma reachable_index image term st : reachable image term st -> word16 (index st).
Proof.
  intros Hreach. destruct Hreach as [|st st' _ Hstep].
  - unfold word16. simpl. lia.
  - apply step_inv in Hstep as (a & b & c & op & _ & _ & Hexec).
    exact (exec_index_word16 _ _ _ _ _ _ Hexec).
Qed.

(** X7: the states of a run of [main].  Whatever file is loaded and
    whatever the terminal delivers, at the head of every iteration there
    are eight registers holding values in [0, 32767], the stack and the
    memory hold 16-bit words, the memory has as many words as the loaded
    program, and the instruction pointer is a 16-bit word. *)
Theorem main_states (fs : list byte -> option (list byte)) (term : terminal)
  (image : list Z) (st : vm) :
  readBinary fs challenge_bin = Loaded image ->
  reachable image term st ->
  length (registers st) = 8%nat /\
  Forall word15 (registers st) /\
  Forall word16 (s (stk st)) /\
  Forall word16 (program st) /\
  length (program st) = length image /\
  word16 (index st).
Proof.
  intros Hload Hreach.
  assert (Himage : Forall word16 image).
  { unfold readBinary in Hload.
    destruct (fs challenge_bin) as [file|]; [|discriminate].
    apply read_words_decode in Hload as [_ H]. exact H. }
  destruct (reachable_ok image term st Himage Hreach)
    as [Hlen Hregs Hstack Hwords Hcells].
  repeat split; try assumption.
  - symmetry. exact (Forall2_length _ _ _ Hcells).
  - apply (reachable_index image term st Hreach).
  - apply (reachable_index image term st Hreach).
Qed.

Lemma run_ends image term fuel : forall st0 r,
  reachable image term st0 ->
  run fuel st0 = Some r ->
  exists st, reachable image term st /\
    ((r = Ok st /\ step st = Ok (Break st)) \/
     (exists e, r = Panic e /\ step st = Panic e)).
Proof.
  induction fuel as [|fuel IH]; intros st0 r Hreach Hrun; [discriminate|].
  simpl in Hrun.
  destruct (step st0) as [[st1|st1]|e] eqn:Hstep.
  - apply (IH st1 r); [|exact Hrun].
    exact (reach_step image term st0 st1 Hreach Hstep).
  - injection Hrun as <-. exists st0. split; [exact Hreach|]. left.
    pose proof (break_state st0 st1 Hstep) as ->.
    split; [reflexivity|exact Hstep].
  - injection Hrun as <-. exists st0. split; [exact Hreach|]. right.
    exists e. split; [reflexivity|exact Hstep].
Qed.

(** X8: how a run of [main] ends.  When the loop ends within the given
    number of iterations, it ends in a state that the run reached from
    the boot state of the loaded program: either that state is returned
    as it is and its iteration was a [break VM], or the result is the
    panic of the iteration of that state.  Nothing runs when the program
    cannot be loaded. *)
Theorem main_ends (fs : list byte -> option (list byte)) (term : terminal)
  (fuel : nat) :
  (forall e, readBinary fs challenge_bin = LoadPanic e ->
     main fs term fuel = LoadPanic e) /\
  (forall r, main fs term fuel = Loaded (Some r) ->
     exists image st,
       readBinary fs challenge_bin = Loaded image /\
       reachable image term st /\
       ((r = Ok st /\ step st = Ok (Break st)) \/
        (exists e, r = Panic e /\ step st = Panic e))).
Proof.
  unfold main. split.
  - intros e ->. reflexivity.
  - intros r Hmain.
    destruct (readBinary fs challenge_bin) as [image|e]; [|discriminate].
    injection Hmain as Hrun.
    destruct (run_ends image term fuel (boot image term) r (reach_boot _ _) Hrun)
      as (st & Hreach & Hend).
    exists image, st. auto.
Qed.

Lemma main_states_witness :
  exists st,
    step (boot noop_halt_image []) = Ok (Continue st) /\
    Forall word15 (registers st) /\ length (program st) = 5%nat.
Proof.
  exists (with_index (boot noop_halt_image []) 1).
  split; [reflexivity|].
  destruct (main_states (one_file (encode_words noop_halt_image)) []
              noop_halt_image (with_index (boot noop_halt_image []) 1))
    as (_ & Hregs & _ & _ & Hlen & _).
  - reflexivity.
  - apply reach_step with (boot noop_halt_image []); [apply reach_boot|reflexivity].
  - split; [exact Hregs|exact Hlen].
Defined.

Lemma main_ends_witness :
  exists image st,
    readBinary (one_file (encode_words noop_halt_image)) challenge_bin = Loaded image /\
    reachable image [] st /\
    step st = Ok (Break st).
Proof.
  destruct (main_ends (one_file (encode_words noop_halt_image)) [] 5) as [_ H].
  destruct (H (Ok (with_index (boot noop_halt_image []) 1)) eq_refl)
    as (image & st & Hload & Hreach & [[_ Hbreak]|(e & Habs & _)]).
  - exists image, st. auto.
  - discriminate Habs.
Defined.

(** ** What the opcodes store *)

(** X9: opcode 1 copies.  With a destination that names a register, set
    stores the value its second operand resolves to, a literal or the
    content of another register, leaves everything else alone and
    continues three words further. *)
Theorem set_copies_value (st : vm) (a b c vb : Z) :
  operands st = Ok (a, b, c) ->
  at_index (program st) (index st) = Ok 1 ->
  length (registers st) = 8%nat ->
  32768 <= a <= 32775 ->
  getValue (registers st) b = Ok vb ->
  step st = Ok (Continue (advance (advance (reg_write st a vb) 2) 1)).
Proof.
  intros Hops Hop Hlen Ha Hb.
  rewrite (step_exec _ _ _ _ _ Hops Hop). unfold exec, setRegister.
  rewrite Hb. simpl.
  rewrite u16_small by (unfold word16; lia).
  rewrite store_in_range by lia. reflexivity.
Qed.

Lemma set_copies_value_witness :
  step (instr_machine 1 32768 32770 0 5 6 7 [])
  = Ok (Continue (mkVM [7; 6; 7; 0; 0; 0; 0; 0] newStack
                       [1; 32768; 32770; 0; 0; 0; 0] 3 [] [] [])).
Proof.
  rewrite (set_copies_value (instr_machine 1 32768 32770 0 5 6 7 []) 32768 32770 0 7);
    [reflexivity|reflexivity|reflexivity|reflexivity|lia|reflexivity].
Defined.

(** X10: opcodes 4 and 5 store a truth value.  With a destination that
    names a register and operands that resolve, eq stores 1 when the two
    values are equal and 0 otherwise, gt stores 1 when the first is
    greater than the second and 0 otherwise; nothing else changes and the
    run continues four words further. *)
Theorem eq_gt_store_truth_value (st : vm) (op a b c vb vc : Z) :
  operands st = Ok (a, b, c) ->
  at_index (program st) (index st) = Ok op ->
  op = 4 \/ op = 5 ->
  length (registers st) = 8%nat ->
  32768 <= a <= 32775 ->
  getValue (registers st) b = Ok vb ->
  getValue (registers st) c = Ok vc ->
  step st = Ok (Continue (advance (advance
    (reg_write st a (if (if op =? 4 then vb =? vc else vc <? vb) then 1 else 0))
    3) 1)).
Proof.
  intros Hops Hop Hwhich Hlen Ha Hb Hc.
  rewrite (step_exec _ _ _ _ _ Hops Hop).
  destruct Hwhich as [-> | ->]; unfold exec.
  - rewrite (binary_stores st a b c _ vb vc Hlen Ha Hb Hc); [reflexivity|].
    destruct (vb =? vc); lia.
  - rewrite (binary_stores st a b c _ vb vc Hlen Ha Hb Hc).
    + rewrite Z.gtb_ltb. reflexivity.
    + destruct (vb >? vc); lia.
Qed.

Lemma eq_gt_store_truth_value_witness :
  registers <$> (match step (instr_machine 4 32768 32769 6 5 6 7 []) with
                 | Ok (Continue st') => Some st' | _ => None end)
    = Some [1; 6; 7; 0; 0; 0; 0; 0] /\
  registers <$> (match step (instr_machine 5 32768 32769 32770 5 6 7 []) with
                 | Ok (Continue st') => Some st' | _ => None end)
    = Some [0; 6; 7; 0; 0; 0; 0; 0].
Proof.
  split.
  - rewrite (eq_gt_store_truth_value (instr_machine 4 32768 32769 6 5 6 7 [])
               4 32768 32769 6 6 6);
      [reflexivity|reflexivity|reflexivity|left; reflexivity|reflexivity|lia
      |reflexivity|reflexivity].
  - rewrite (eq_gt_store_truth_value (instr_machine 5 32768 32769 32770 5 6 7 [])
               5 32768 32769 32770 6 7);
      [reflexivity|reflexivity|reflexivity|right; reflexivity|reflexivity|lia
      |reflexivity|reflexivity].
Defined.

(** X11: opcodes 9 and 10 are exact modulo 32768.  Although the sum and
    the product are first formed in 16 bits, where they wrap around, what
    add and mult store is the exact sum, respectively the exact product,
    of the two values reduced modulo 32768. *)
Theorem add_mult_exact (st : vm) (op a b c vb vc : Z) :
  operands st = Ok (a, b, c) ->
  at_index (program st) (index st) = Ok op ->
  op = 9 \/ op = 10 ->
  length (registers st) = 8%nat ->
  32768 <= a <= 32775 ->
  getValue (registers st) b = Ok vb ->
  getValue (registers st) c = Ok vc ->
  step st = Ok (Continue (advance (advance
    (reg_write st a ((if op =? 9 then vb + vc else vb * vc) mod 32768)) 3) 1)).
Proof.
  intros Hops Hop Hwhich Hlen Ha Hb Hc.
  rewrite (step_exec _ _ _ _ _ Hops Hop).
  destruct Hwhich as [-> | ->]; unfold exec.
  - rewrite (binary_stores st a b c _ vb vc Hlen Ha Hb Hc).
    + rewrite u16_mod15. reflexivity.
    + pose proof (mod15_range (u16 (vb + vc))) as H. unfold word15 in H. lia.
  - rewrite (binary_stores st a b c _ vb vc Hlen Ha Hb Hc).
    + rewrite u16_mod15. reflexivity.
    + pose proof (mod15_range (u16 (vb * vc))) as H. unfold word15 in H. lia.
Qed.

Lemma add_mult_exact_witness :
  registers <$> (match step (instr_machine 9 32768 32769 32770 0 32767 32767 []) with
                 | Ok (Continue st') => Some st' | _ => None end)
    = Some [32766; 32767; 32767; 0; 0; 0; 0; 0] /\
  registers <$> (match step (instr_machine 10 32768 32769 32770 0 32767 32767 []) with
                 | Ok (Continue st') => Some st' | _ => None end)
    = Some [1; 32767; 32767; 0; 0; 0; 0; 0].
Proof.
  split.
  - rewrite (add_mult_exact (instr_machine 9 32768 32769 32770 0 32767 32767 [])
               9 32768 32769 32770 32767 32767);
      [reflexivity|reflexivity|reflexivity|left; reflexivity|reflexivity|lia
      |reflexivity|reflexivity].
  - rewrite (add_mult_exact (instr_machine 10 32768 32769 32770 0 32767 32767 [])
               10 32768 32769 32770 32767 32767);
      [reflexivity|reflexivity|reflexivity|right; reflexivity|reflexivity|lia
      |reflexivity|reflexivity].
Defined.

Lemma word15_bits x n : word15 x -> 15 <= n -> Z.testbit x n = false.
Proof.
  intros Hx Hn. apply (bits_above 15); [|lia].
  unfold word15 in Hx. change (2 ^ 15) with 32768. lia.
Qed.

Lemma land_word15 x y : word15 x -> Z.land x y mod 32768 = Z.land x y.
Proof.
  intros Hx. change 32768 with (2 ^ 15).
  apply Z.bits_inj'. intros n Hn.
  destruct (Z.lt_ge_cases n 15) as [Hlt|Hge].
  - apply Z.mod_pow2_bits_low. exact Hlt.
  - rewrite Z.mod_pow2_bits_high by lia.
    rewrite Z.land_spec, (word15_bits x n Hx Hge). reflexivity.
Qed.

Lemma lor_word15 x y : word15 x -> word15 y -> Z.lor x y mod 32768 = Z.lor x y.
Proof.
  intros Hx Hy. change 32768 with (2 ^ 15).
  apply Z.bits_inj'. intros n Hn.
  destruct (Z.lt_ge_cases n 15) as [Hlt|Hge].
  - apply Z.mod_pow2_bits_low. exact Hlt.
  - rewrite Z.mod_pow2_bits_high by lia.
    rewrite Z.lor_spec, (word15_bits x n Hx Hge), (word15_bits y n Hy Hge).
    reflexivity.
Qed.

(** X12: opcodes 12 and 13 are the plain bitwise operations.  On values in
    [0, 32767] the reduction modulo 32768 that follows the bitwise and,
    respectively or, changes nothing: the destination register receives
    the bitwise and, respectively or, of the two values. *)
Theorem and_or_plain (st : vm) (op a b c vb vc : Z) :
  operands st = Ok (a, b, c) ->
  at_index (program st) (index st) = Ok op ->
  op = 12 \/ op = 13 ->
  length (registers st) = 8%nat ->
  32768 <= a <= 32775 ->
  getValue (registers st) b = Ok vb ->
  getValue (registers st) c = Ok vc ->
  word15 vb -> word15 vc ->
  step st = Ok (Continue (advance (advance
    (reg_write st a (if op =? 12 then Z.land vb vc else Z.lor vb vc)) 3) 1)).
Proof.
  intros Hops Hop Hwhich Hlen Ha Hb Hc Hvb Hvc.
  rewrite (step_exec _ _ _ _ _ Hops Hop).
  destruct Hwhich as [-> | ->]; unfold exec.
  - rewrite (binary_stores st a b c _ vb vc Hlen Ha Hb Hc).
    + rewrite (land_word15 vb vc Hvb). reflexivity.
    + pose proof (mod15_range (Z.land vb vc)) as H. unfold word15 in H. lia.
  - rewrite (binary_stores st a b c _ vb vc Hlen Ha Hb Hc).
    + rewrite (lor_word15 vb vc Hvb Hvc). reflexivity.
    + pose proof (mod15_range (Z.lor vb vc)) as H. unfold word15 in H. lia.
Qed.

Lemma and_or_plain_witness :
  registers <$> (match step (instr_machine 12 32768 32769 32770 0 12 10 []) with
                 | Ok (Continue st') => Some st' | _ => None end)
    = Some [8; 12; 10; 0; 0; 0; 0; 0] /\
  registers <$> (match step (instr_machine 13 32768 32769 32770 0 12 10 []) with
                 | Ok (Continue st') => Some st' | _ => None end)
    = Some [14; 12; 10; 0; 0; 0; 0; 0].
Proof.
  split.
  - rewrite (and_or_plain (instr_machine 12 32768 32769 32770 0 12 10 [])
               12 32768 32769 32770 12 10);
      [reflexivity|reflexivity|reflexivity|left; reflexivity|reflexivity|lia
      |reflexivity|reflexivity|unfold word15; lia|unfold word15; lia].
  - rewrite (and_or_plain (instr_machine 13 32768 32769 32770 0 12 10 [])
               13 32768 32769 32770 12 10);
      [reflexivity|reflexivity|reflexivity|right; reflexivity|reflexivity|lia
      |reflexivity|reflexivity|unfold word15; lia|unfold word15; lia].
Defined.

(** X13: opcode 11 with a divisor that is not zero.  For values in
    [0, 32767] and a nonzero divisor, mod stores the remainder of the
    division, which is below the divisor, and continues four words
    further. *)
Theorem mod_stores_remainder (st : vm) (a b c vb vc : Z) :
  operands st = Ok (a, b, c) ->
  at_index (program st) (index st) = Ok 11 ->
  length (registers st) = 8%nat ->
  32768 <= a <= 32775 ->
  getValue (registers st) b = Ok vb ->
  getValue (registers st) c = Ok vc ->
  word15 vb -> word15 vc -> vc <> 0 ->
  step st = Ok (Continue (advance (advance (reg_write st a (vb mod vc)) 3) 1)) /\
  0 <= vb mod vc < vc.
Proof.
  intros Hops Hop Hlen Ha Hb Hc Hvb Hvc Hnz.
  unfold word15 in Hvb, Hvc.
  assert (Hrem : 0 <= vb mod vc < vc) by (apply Z.mod_pos_bound; lia).
  split; [|exact Hrem].
  rewrite (step_exec _ _ _ _ _ Hops Hop). unfold exec.
  rewrite Hb. simpl. rewrite Hc. simpl.
  destruct (Z.eqb_spec vc 0) as [Hz|_]; [contradiction|].
  apply reg_write_step; [exact Hlen|exact Ha|lia].
Qed.

Lemma mod_stores_remainder_witness :
  registers <$> (match step (instr_machine 11 32768 32769 32770 0 17 5 []) with
                 | Ok (Continue st') => Some st' | _ => None end)
    = Some [2; 17; 5; 0; 0; 0; 0; 0].
Proof.
  destruct (mod_stores_remainder (instr_machine 11 32768 32769 32770 0 17 5 [])
              32768 32769 32770 17 5) as [Hstep _];
    [reflexivity|reflexivity|reflexivity|lia|reflexivity|reflexivity
    |unfold word15; lia|unfold word15; lia|lia|].
  rewrite Hstep. reflexivity.
Defined.

(** ** Jumps *)

(** X14: opcodes 6, 7 and 8.  jmp continues at the value of its operand.
    jt continues at the value of its second operand when the first is not
    zero, and three words further when it is zero; jf does the opposite.
    The target is resolved only when the jump is taken.  No jump changes
    anything but the instruction pointer. *)
Theorem jumps (st : vm) (op a b c va : Z) :
  operands st = Ok (a, b, c) ->
  at_index (program st) (index st) = Ok op ->
  getValue (registers st) a = Ok va ->
  (op = 6 -> word16 va -> step st = Ok (Continue (with_index st va))) /\
  (op = 7 \/ op = 8 ->
   (if op =? 7 then va =? 0 else negb (va =? 0)) = true ->
   step st = Ok (Continue (advance (advance st 2) 1))) /\
  (op = 7 \/ op = 8 ->
   (if op =? 7 then va =? 0 else negb (va =? 0)) = false ->
   forall vb, getValue (registers st) b = Ok vb -> word16 vb ->
   step st = Ok (Continue (with_index st vb))).
Proof.
  intros Hops Hop Ha.
  rewrite (step_exec _ _ _ _ _ Hops Hop).
  assert (Hland : forall v, word16 v ->
            loop_end (with_index st (u16 (v - 1))) = Ok (Continue (with_index st v))).
  { intros v Hv. unfold loop_end, advance, with_index. simpl.
    rewrite (u16_pred_succ v Hv). reflexivity. }
  split; [|split].
  - intros -> Hva. unfold exec. rewrite Ha. simpl. apply Hland. exact Hva.
  - intros [-> | ->] Hcond; unfold exec; rewrite Ha; simpl in *.
    + rewrite Hcond. reflexivity.
    + apply negb_true_iff in Hcond. rewrite Hcond. reflexivity.
  - intros [-> | ->] Hcond vb Hb Hvb; unfold exec; rewrite Ha; simpl in *.
    + rewrite Hcond. simpl. rewrite Hb. simpl. apply Hland. exact Hvb.
    + apply negb_false_iff in Hcond. rewrite Hcond. rewrite Hb. simpl.
      apply Hland. exact Hvb.
Qed.

Lemma jumps_witness :
  step (instr_machine 6 5 0 0 0 0 0 []) = Ok (Continue (with_index (instr_machine 6 5 0 0 0 0 0 []) 5)) /\
  step (instr_machine 7 0 50000 0 0 0 0 [])
    = Ok (Continue (with_index (instr_machine 7 0 50000 0 0 0 0 []) 3)) /\
  step (instr_machine 8 0 6 0 0 0 0 [])
    = Ok (Continue (with_index (instr_machine 8 0 6 0 0 0 0 []) 6)).
Proof.
  split; [|split].
  - destruct (jumps (instr_machine 6 5 0 0 0 0 0 []) 6 5 0 0 5 eq_refl eq_refl eq_refl)
      as (H & _ & _).
    apply H; [reflexivity|unfold word16; lia].
  - destruct (jumps (instr_machine 7 0 50000 0 0 0 0 []) 7 0 50000 0 0
                eq_refl eq_refl eq_refl) as (_ & H & _).
    rewrite H; [reflexivity|left; reflexivity|reflexivity].
  - destruct (jumps (instr_machine 8 0 6 0 0 0 0 []) 8 0 6 0 0
                eq_refl eq_refl eq_refl) as (_ & _ & H).
    apply (H ltac:(right; reflexivity) eq_refl 6); [reflexivity|unfold word16; lia].
Defined.

(** ** Stack opcodes *)

(** X15: push, then pop.  Opcode 2 pushes the value of its operand and
    touches nothing else.  When a later state has the stack that push
    left, opcode 3 with a destination that names a register stores the
    pushed value there, provided it is below 32768, and the stack is again
    what it was before the push. *)
Theorem push_then_pop (st : vm) (a b c va : Z) :
  operands st = Ok (a, b, c) ->
  at_index (program st) (index st) = Ok 2 ->
  getValue (registers st) a = Ok va ->
  step st = Ok (Continue (advance (advance (with_stk st (Push (stk st) va)) 1) 1)) /\
  forall st2 a2 b2 c2,
    stk st2 = Push (stk st) va ->
    operands st2 = Ok (a2, b2, c2) ->
    at_index (program st2) (index st2) = Ok 3 ->
    length (registers st2) = 8%nat ->
    32768 <= a2 <= 32775 ->
    va < 32768 ->
    step st2 = Ok (Continue (advance (advance
                 (reg_write (with_stk st2 (stk st)) a2 va) 1) 1)).
Proof.
  intros Hops Hop Ha. split.
  - rewrite (step_exec _ _ _ _ _ Hops Hop). unfold exec. rewrite Ha. reflexivity.
  - intros st2 a2 b2 c2 Hstk Hops2 Hop2 Hlen Ha2 Hva.
    rewrite (step_exec _ _ _ _ _ Hops2 Hop2). unfold exec.
    rewrite Hstk, Pop_Push.
    rewrite (setRegister_literal _ _ _ Hlen Ha2 Hva). reflexivity.
Qed.

Lemma push_then_pop_witness :
  step (instr_machine 2 32769 0 0 5 6 7 [9])
    = Ok (Continue (mkVM [5; 6; 7; 0; 0; 0; 0; 0] (mkStack [9; 6])
                         [2; 32769; 0; 0; 0; 0; 0] 2 [] [] [])) /\
  step (instr_machine 3 32768 0 0 5 6 7 [9; 6])
    = Ok (Continue (mkVM [6; 6; 7; 0; 0; 0; 0; 0] (mkStack [9])
                         [3; 32768; 0; 0; 0; 0; 0] 2 [] [] [])).
Proof.
  destruct (push_then_pop (instr_machine 2 32769 0 0 5 6 7 [9]) 32769 0 0 6
              eq_refl eq_refl eq_refl) as [Hpush Hpop].
  split; [rewrite Hpush; reflexivity|].
  rewrite (Hpop (instr_machine 3 32768 0 0 5 6 7 [9; 6]) 32768 0 0);
    [reflexivity|reflexivity|reflexivity|reflexivity|reflexivity|lia|lia].
Defined.

(** ** Memory opcodes *)

(** X16: opcode 16 writes one cell.  wmem stores the value of its second
    operand at the address its first operand resolves to, when that
    address is inside the program: the cell then reads back as that value
    (also when it is fetched as an instruction), every other cell and the
    length of the memory are unchanged.  An address at or past the end of
    the program is an index out of range; the memory never grows. *)
Theorem wmem_writes_one_cell (st : vm) (a b c addr v : Z) :
  operands st = Ok (a, b, c) ->
  at_index (program st) (index st) = Ok 16 ->
  getValue (registers st) a = Ok addr ->
  getValue (registers st) b = Ok v ->
  0 <= addr ->
  (addr < Z.of_nat (length (program st)) ->
   exists st',
     step st = Ok (Continue st') /\
     st' = advance (advance (with_program st (<[Z.to_nat addr := v]> (program st))) 2) 1 /\
     at_index (program st') addr = Ok v /\
     length (program st') = length (program st) /\
     forall i, i <> addr -> at_index (program st') i = at_index (program st) i) /\
  (Z.of_nat (length (program st)) <= addr -> step st = Panic OutOfRange).
Proof.
  intros Hops Hop Ha Hb Haddr.
  rewrite (step_exec _ _ _ _ _ Hops Hop). unfold exec.
  rewrite Ha. simpl. rewrite Hb. simpl. split.
  - intros Hin. rewrite store_in_range by lia.
    eexists. split; [reflexivity|]. split; [reflexivity|]. simpl.
    split; [|split].
    + apply at_index_lookup; [exact Haddr|].
      apply list_lookup_insert_eq. lia.
    + apply length_insert.
    + intros i Hi. unfold at_index. rewrite length_insert.
      destruct ((0 <=? i) && (i <? Z.of_nat (length (program st)))) eqn:Hrange;
        [|reflexivity].
      apply andb_true_iff in Hrange as [Hlo _]. apply Z.leb_le in Hlo.
      rewrite list_lookup_insert_ne by lia. reflexivity.
  - intros Hout. unfold store.
    destruct (Z.ltb_spec addr (Z.of_nat (length (program st)))); [lia|].
    rewrite andb_false_r. reflexivity.
Qed.

Lemma wmem_writes_one_cell_witness :
  (exists st', step (instr_machine 16 4 32769 0 5 21 7 []) = Ok (Continue st') /\
     program st' = [16; 4; 32769; 0; 21; 0; 0]) /\
  step (instr_machine 16 7 32769 0 5 21 7 []) = Panic OutOfRange.
Proof.
  split.
  - destruct (wmem_writes_one_cell (instr_machine 16 4 32769 0 5 21 7 [])
                4 32769 0 4 21 eq_refl eq_refl eq_refl eq_refl ltac:(lia))
      as [Hin _].
    destruct (Hin ltac:(simpl; lia)) as (st' & Hstep & -> & _).
    eexists. split; [exact Hstep|reflexivity].
  - destruct (wmem_writes_one_cell (instr_machine 16 7 32769 0 5 21 7 [])
                7 32769 0 7 21 eq_refl eq_refl eq_refl eq_refl ltac:(lia))
      as [_ Hout].
    apply Hout. simpl. lia.
Defined.

(** X17: opcode 15 resolves what it reads.  rmem does not store the
    content of the addressed cell as it is: the cell is resolved like an
    operand.  A cell below 32768 is stored unchanged; a cell from 32768 to
    32775 makes rmem store the content of the register it names; a cell
    from 32776 on is an overflow panic; an address outside the program is
    an index out of range. *)
Theorem rmem_resolves_cell (st : vm) (a b c addr : Z) :
  operands st = Ok (a, b, c) ->
  at_index (program st) (index st) = Ok 15 ->
  length (registers st) = 8%nat ->
  Forall word15 (registers st) ->
  32768 <= a <= 32775 ->
  getValue (registers st) b = Ok addr ->
  (forall cell v,
     at_index (program st) addr = Ok cell ->
     0 <= cell ->
     getValue (registers st) cell = Ok v ->
     step st = Ok (Continue (advance (advance (reg_write st a v) 2) 1))) /\
  (forall cell,
     at_index (program st) addr = Ok cell ->
     32776 <= cell -> step st = Panic Overflow) /\
  (at_index (program st) addr = Panic OutOfRange -> step st = Panic OutOfRange).
Proof.
  intros Hops Hop Hlen Hregs Ha Hb.
  rewrite (step_exec _ _ _ _ _ Hops Hop). unfold exec.
  rewrite Hb. simpl. split; [|split].
  - intros cell v Hcell Hpos Hv. rewrite Hcell. simpl. rewrite Hv. simpl.
    apply reg_write_step; [exact Hlen|exact Ha|].
    pose proof (getValue_word15 _ _ _ Hregs Hpos Hv) as Hw.
    unfold word15 in Hw. lia.
  - intros cell Hcell Hbig. rewrite Hcell. simpl.
    rewrite getValue_overflow by exact Hbig. reflexivity.
  - intros Hout. rewrite Hout. reflexivity.
Qed.

Lemma rmem_resolves_cell_witness :
  registers <$> (match step (instr_machine 15 32768 2 0 5 6 7 []) with
                 | Ok (Continue st') => Some st' | _ => None end)
    = Some [2; 6; 7; 0; 0; 0; 0; 0] /\
  registers <$> (match step (instr_machine 15 32768 1 32770 5 6 7 []) with
                 | Ok (Continue st') => Some st' | _ => None end)
    = Some [5; 6; 7; 0; 0; 0; 0; 0] /\
  step (instr_machine 15 32768 3 40000 5 6 7 []) = Panic Overflow /\
  step (instr_machine 15 32768 7 0 5 6 7 []) = Panic OutOfRange.
Proof.
  assert (Hregs : Forall word15 [5; 6; 7; 0; 0; 0; 0; 0]).
  { repeat constructor; unfold word15; lia. }
  split; [|split; [|split]].
  - destruct (rmem_resolves_cell (instr_machine 15 32768 2 0 5 6 7 []) 32768 2 0 2
                eq_refl eq_refl eq_refl Hregs ltac:(lia) eq_refl) as (H & _ & _).
    rewrite (H 2 2); [reflexivity|reflexivity|lia|reflexivity].
  - destruct (rmem_resolves_cell (instr_machine 15 32768 1 32770 5 6 7 []) 32768 1 32770 1
                eq_refl eq_refl eq_refl Hregs ltac:(lia) eq_refl) as (H & _ & _).
    rewrite (H 32768 5); [reflexivity|reflexivity|lia|reflexivity].
  - destruct (rmem_resolves_cell (instr_machine 15 32768 3 40000 5 6 7 []) 32768 3 40000 3
                eq_refl eq_refl eq_refl Hregs ltac:(lia) eq_refl) as (_ & H & _).
    apply (H 40000); [reflexivity|lia].
  - destruct (rmem_resolves_cell (instr_machine 15 32768 7 0 5 6 7 []) 32768 7 0 7
                eq_refl eq_refl eq_refl Hregs ltac:(lia) eq_refl) as (_ & _ & H).
    apply H. reflexivity.
Defined.

(** ** Panics *)

Lemma exec_unknown st op a b c :
  ~ 0 <= op <= 21 -> exec st op a b c = Panic (UnknownOpcode op).
Proof.
  intros Hop.
  destruct op as [|p|p]; [lia| |reflexivity].
  do 5 (try (destruct p as [p|p|]; try reflexivity; try lia)).
Qed.

(** X18: a word that is no opcode.  When the word at the instruction
    pointer is not one of 0 to 21, the iteration panics and the panic
    reports that word; no state is produced. *)
Theorem unknown_opcode_panics (st : vm) (a b c op : Z) :
  operands st = Ok (a, b, c) ->
  at_index (program st) (index st) = Ok op ->
  ~ 0 <= op <= 21 ->
  step st = Panic (UnknownOpcode op) /\
  forall n, run (S n) st = Some (Panic (UnknownOpcode op)).
Proof.
  intros Hops Hop Hbad.
  assert (Hstep : step st = Panic (UnknownOpcode op)).
  { rewrite (step_exec _ _ _ _ _ Hops Hop). apply exec_unknown. exact Hbad. }
  split; [exact Hstep|]. intros n. simpl. rewrite Hstep. reflexivity.
Qed.

Lemma unknown_opcode_panics_witness :
  step (boot [22; 0; 0; 0] []) = Panic (UnknownOpcode 22) /\
  step (boot [32768; 0; 0; 0] []) = Panic (UnknownOpcode 32768).
Proof.
  split.
  - apply (unknown_opcode_panics (boot [22; 0; 0; 0] []) 0 0 0 22 eq_refl eq_refl).
    lia.
  - apply (unknown_opcode_panics (boot [32768; 0; 0; 0] []) 0 0 0 32768 eq_refl eq_refl).
    lia.
Defined.

Lemma at_index_panic sl i e : at_index sl i = Panic e -> e = OutOfRange.
Proof.
  unfold at_index.
  destruct ((0 <=? i) && (i <? Z.of_nat (length sl)));
    [destruct (sl !! Z.to_nat i)|]; congruence.
Qed.





Lemma operands_panic st e : operands st = Panic e -> e = OutOfRange.
Proof.
  unfold operands.
  destruct (u16 (index st + 1) <? length16 st); [|discriminate].
  destruct (at_index (program st) (u16 (index st + 1))) eqn:Ha; simpl;
    [|intros [= <-]; exact (at_index_panic _ _ _ Ha)].
  destruct (at_index (program st) (u16 (index st + 2))) eqn:Hb; simpl;
    [|intros [= <-]; exact (at_index_panic _ _ _ Hb)].
  destruct (at_index (program st) (u16 (index st + 3))) eqn:Hc; simpl;
    [discriminate|intros [= <-]; exact (at_index_panic _ _ _ Hc)].
Qed.





(** X20: input that ends.  When opcode 20 finds the line buffer empty and
    the terminal has no newline left to deliver, whether it is at its end
    or holds a last line that is not terminated, the iteration panics with
    the read error: the characters of an unterminated last line are never
    handed to the program. *)
Theorem in_at_end_of_input (st : vm) (a b c : Z) :
  operands st = Ok (a, b, c) ->
  at_index (program st) (index st) = Ok 20 ->
  input st = [] ->
  ~ In newline (concat (stdin st)) ->
  step st = Panic ReadError.
Proof.
  intros Hops Hop Hbuf Hterm.
  rewrite (step_exec _ _ _ _ _ Hops Hop). unfold exec, refill.
  rewrite Hbuf, (ReadString_None _ _ Hterm). reflexivity.
Qed.

Lemma in_at_end_of_input_witness :
  step (in_machine [] []) = Panic ReadError /\
  step (in_machine [] [[x41; x42]]) = Panic ReadError.
Proof.
  split.
  - apply (in_at_end_of_input (in_machine [] []) 32768 0 0 eq_refl eq_refl eq_refl).
    simpl. tauto.
  - apply (in_at_end_of_input (in_machine [] [[x41; x42]]) 32768 0 0
             eq_refl eq_refl eq_refl).
    simpl. intros [H|[H|[]]]; discriminate H.
Defined.

(** ** What an iteration leaves alone *)

Lemma setRegister_length registers a v r :
  setRegister registers a v = Ok r -> length r = length registers.
Proof.
  unfold setRegister.
  destruct (getValue registers v); simpl; [|discriminate].
  intros H. apply store_Ok in H as [_ ->]. apply length_insert.
Qed.

Lemma refill_terminal st st1 :
  refill st = Ok st1 ->
  exists evs read,
    output st1 = output st ++ evs /\ concat (stdin st) = read ++ concat (stdin st1).
Proof.
  unfold refill. intros H.
  destruct (input st).
  - destruct (ReadString newline (stdin st)) as [[line rest]|] eqn:Hread;
      [|discriminate].
    injection H as <-.
    destruct (ReadString_Some _ _ _ _ Hread) as (body & lost & _ & _ & Hfront).
    exists [Prompt], (line ++ lost). split; [reflexivity|]. simpl.
    rewrite Hfront, <- app_assoc. reflexivity.
  - injection H as <-. exists [], []. split; [rewrite app_nil_r|]; reflexivity.
Qed.

Ltac frame_learn :=
  repeat match goal with
  | H : setRegister _ _ _ = Ok _ |- _ => apply setRegister_length in H
  | H : store _ _ _ = Ok _ |- _ => apply store_Ok in H as [_ ->]
  end.

(** X21: memory changes only by opcode 16.  An iteration that continues
    never changes the number of words of the memory, and unless its opcode
    is wmem it leaves every word of the memory as it was: no other opcode
    can modify the program. *)
Theorem memory_frame (st st' : vm) (op : Z) :
  step st = Ok (Continue st') ->
  at_index (program st) (index st) = Ok op ->
  length (program st') = length (program st) /\
  (op <> 16 -> program st' = program st).
Proof.
  intros Hstep Hop.
  apply step_inv in Hstep as (a & b & c & op' & _ & Hop' & Hexec).
  rewrite Hop in Hop'. injection Hop' as <-.
  destruct op as [|p|p]; try discriminate Hexec;
  do 5 (try (destruct p as [p|p|]; try discriminate Hexec)).
  all: unfold exec, binary in Hexec.
  all: crunch Hexec.
  all: try discriminate Hexec.
  all: injection Hexec as <-.
  all: try match goal with
       | H : refill _ = Ok _ |- _ => apply refill_frame in H as (_ & _ & Hp & _)
       end.
  all: frame_learn; simpl.
  all: split; [|intros Hne]; try reflexivity; try congruence.
  all: try apply length_insert.
Qed.

Lemma memory_frame_witness :
  exists st', step (instr_machine 9 32768 32769 32770 0 3 4 []) = Ok (Continue st') /\
    program st' = [9; 32768; 32769; 32770; 0; 0; 0].
Proof.
  exists (mkVM [7; 3; 4; 0; 0; 0; 0; 0] newStack [9; 32768; 32769; 32770; 0; 0; 0] 4 [] [] []).
  split; [reflexivity|].
  destruct (memory_frame (instr_machine 9 32768 32769 32770 0 3 4 [])
              (mkVM [7; 3; 4; 0; 0; 0; 0; 0] newStack
                    [9; 32768; 32769; 32770; 0; 0; 0] 4 [] [] [])
              9 eq_refl eq_refl) as [_ H].
  rewrite H by lia. reflexivity.
Defined.

(** X22: what else an iteration leaves alone.  An iteration that continues
    keeps the number of registers; it changes registers only on the
    opcodes that write one, the stack only on push, pop, call and ret, the
    line buffer and the terminal only on in; it never removes anything
    from the output, to which only out and in append; and the terminal
    only shrinks from its front. *)
Theorem state_frame (st st' : vm) (op : Z) :
  step st = Ok (Continue st') ->
  at_index (program st) (index st) = Ok op ->
  length (registers st') = length (registers st) /\
  (writes_registers op = false -> registers st' = registers st) /\
  (uses_stack op = false -> stk st' = stk st) /\
  (op <> 20 -> input st' = input st /\ stdin st' = stdin st) /\
  (op <> 19 -> op <> 20 -> output st' = output st) /\
  (exists evs, output st' = output st ++ evs) /\
  (exists read, concat (stdin st) = read ++ concat (stdin st')).
Proof.
  intros Hstep Hop.
  apply step_inv in Hstep as (a & b & c & op' & _ & Hop' & Hexec).
  rewrite Hop in Hop'. injection Hop' as <-.
  destruct op as [|p|p]; try discriminate Hexec;
  do 5 (try (destruct p as [p|p|]; try discriminate Hexec)).
  all: unfold exec, binary in Hexec.
  all: crunch Hexec.
  all: try discriminate Hexec.
  all: injection Hexec as <-.
  all: try match goal with
       | H : refill _ = Ok _ |- _ =>
           pose proof (refill_terminal _ _ H) as (evs & read & Hout & Hin);
           apply refill_frame in H as (Hr & Hs & _ & _)
       end.
  all: frame_learn; simpl.
  all: repeat split; try (intros; reflexivity); try (intros; congruence);
       try discriminate.
  all: try (exists []; rewrite app_nil_r; reflexivity).
  all: try (exists []; reflexivity).
  all: try (eexists; reflexivity).
  - exists evs. exact Hout.
  - exists read. exact Hin.
Qed.

Lemma state_frame_witness :
  exists st', step (instr_machine 19 65 0 0 5 6 7 [9]) = Ok (Continue st') /\
    registers st' = [5; 6; 7; 0; 0; 0; 0; 0] /\
    stk st' = mkStack [9] /\
    output st' = [OutChar 65].
Proof.
  exists (mkVM [5; 6; 7; 0; 0; 0; 0; 0] (mkStack [9]) [19; 65; 0; 0; 0; 0; 0] 2
               [] [] [OutChar 65]).
  split; [reflexivity|].
  destruct (state_frame (instr_machine 19 65 0 0 5 6 7 [9])
              (mkVM [5; 6; 7; 0; 0; 0; 0; 0] (mkStack [9])
                    [19; 65; 0; 0; 0; 0; 0] 2 [] [] [OutChar 65])
              19 eq_refl eq_refl) as (_ & Hregs & Hstk & _).
  rewrite (Hregs eq_refl), (Hstk eq_refl). repeat split.
Defined.

(** ** Operand fetch inside the program *)

(** X23: operands inside the program.  For a program shorter than 65536
    words and an instruction pointer with at least three words after it,
    the three operands are the three words that follow the opcode, read
    as they are, without resolution. *)
Theorem operands_inside (st : vm) (a b c : Z) :
  0 <= index st ->
  Z.of_nat (length (program st)) < 65536 ->
  index st + 3 < Z.of_nat (length (program st)) ->
  program st !! Z.to_nat (index st + 1) = Some a ->
  program st !! Z.to_nat (index st + 2) = Some b ->
  program st !! Z.to_nat (index st + 3) = Some c ->
  operands st = Ok (a, b, c).
Proof.
  intros Hi Hlen Hin Ha Hb Hc. unfold operands.
  rewrite length16_small by exact Hlen.
  rewrite (u16_small (index st + 1)), (u16_small (index st + 2)),
    (u16_small (index st + 3)) by (unfold word16; lia).
  destruct (Z.ltb_spec (index st + 1) (Z.of_nat (length (program st)))); [|lia].
  rewrite (at_index_lookup _ (index st + 1) _ ltac:(lia) Ha). simpl.
  rewrite (at_index_lookup _ (index st + 2) _ ltac:(lia) Hb). simpl.
  rewrite (at_index_lookup _ (index st + 3) _ ltac:(lia) Hc). reflexivity.
Qed.

Lemma operands_inside_witness :
  operands (instr_machine 9 32768 32769 40000 0 3 4 []) = Ok (32768, 32769, 40000).
Proof.
  apply (operands_inside (instr_machine 9 32768 32769 40000 0 3 4 []));
    simpl; first [lia | reflexivity].
Defined.

(** X24: the last word of the program.  For a program shorter than 65536
    words and an instruction pointer at its last word or past it: below
    65535 no operand is read and all three are 0, so an opcode sitting in
    the last word runs with zero operands; at 65535 the test [index+1]
    wraps around to 0 and the operands are the first three words of the
    program; and in every case an instruction pointer past the end is an
    index out of range. *)
Theorem last_word_operands (st : vm) :
  0 <= index st <= 65535 ->
  Z.of_nat (length (program st)) < 65536 ->
  Z.of_nat (length (program st)) <= index st + 1 ->
  (index st < 65535 ->
   operands st = Ok (0, 0, 0) /\
   forall op, at_index (program st) (index st) = Ok op ->
     step st = exec st op 0 0 0) /\
  (index st = 65535 ->
   forall a b c,
     program st !! 0%nat = Some a ->
     program st !! 1%nat = Some b ->
     program st !! 2%nat = Some c ->
     operands st = Ok (a, b, c)) /\
  (Z.of_nat (length (program st)) <= index st -> step st = Panic OutOfRange).
Proof.
  intros Hi Hlen Hend. split; [|split].
  - intros Hlow.
    pose proof (operands_padded st ltac:(lia) Hlen Hend) as Hops.
    split; [exact Hops|].
    intros op Hop. exact (step_exec st 0 0 0 op Hops Hop).
  - intros Htop a b c Ha Hb Hc.
    pose proof (lookup_lt_Some _ _ _ Hc) as Hthree.
    unfold operands. rewrite length16_small by exact Hlen. rewrite Htop.
    change (u16 (65535 + 1)) with 0. change (u16 (65535 + 2)) with 1.
    change (u16 (65535 + 3)) with 2.
    destruct (Z.ltb_spec 0 (Z.of_nat (length (program st)))); [|lia].
    rewrite (at_index_lookup _ 0 a ltac:(lia) Ha). simpl.
    rewrite (at_index_lookup _ 1 b ltac:(lia) Hb). simpl.
    rewrite (at_index_lookup _ 2 c ltac:(lia) Hc). reflexivity.
  - intros Hpast. unfold step.
    destruct (operands st) as [[[a b] c]|e] eqn:Hops; simpl.
    + rewrite at_index_past by exact Hpast. reflexivity.
    + apply operands_panic in Hops. subst e. reflexivity.
Qed.

Lemma last_word_operands_witness :
  step (boot [0] []) = Ok (Break (boot [0] [])) /\
  step (boot [] []) = Panic OutOfRange /\
  step (with_index (boot [21; 0; 0; 19] []) 3)
    = Ok (Continue (emit (with_index (boot [21; 0; 0; 19] []) 5) (OutChar 0))) /\
  operands (with_index (boot [21; 22; 23] []) 65535) = Ok (21, 22, 23) /\
  step (with_index (boot [21; 22; 23] []) 65535) = Panic OutOfRange.
Proof.
  split; [|split; [|split; [|split]]].
  - destruct (last_word_operands (boot [0] [])) as (H & _ & _);
      [simpl; lia|simpl; lia|simpl; lia|].
    destruct (H ltac:(simpl; lia)) as [_ Hstep].
    rewrite (Hstep 0 eq_refl). reflexivity.
  - destruct (last_word_operands (boot [] [])) as (_ & _ & H);
      [simpl; lia|simpl; lia|simpl; lia|].
    apply H. simpl. lia.
  - destruct (last_word_operands (with_index (boot [21; 0; 0; 19] []) 3))
      as (H & _ & _); [simpl; lia|simpl; lia|simpl; lia|].
    destruct (H ltac:(simpl; lia)) as [_ Hstep].
    rewrite (Hstep 19 eq_refl). reflexivity.
  - destruct (last_word_operands (with_index (boot [21; 22; 23] []) 65535))
      as (_ & H & _); [simpl; lia|simpl; lia|simpl; lia|].
    apply (H eq_refl); reflexivity.
  - destruct (last_word_operands (with_index (boot [21; 22; 23] []) 65535))
      as (_ & _ & H); [simpl; lia|simpl; lia|simpl; lia|].
    apply H. simpl. lia.
Defined.

(** X25: a program of exactly 65536 words.  The length of the program is
    kept in 16 bits, so for a program of 65536 words it is 0 and the guard
    of the operand reads never holds: at every instruction pointer the
    three operands are 0, whatever the memory contains. *)
Theorem operands_of_long_program (st : vm) :
  Z.of_nat (length (program st)) = 65536 ->
  length16 st = 0 /\ operands st = Ok (0, 0, 0).
Proof.
  intros Hlen.
  assert (Hzero : length16 st = 0) by (unfold length16; rewrite Hlen; reflexivity).
  split; [exact Hzero|].
  unfold operands. rewrite Hzero.
  destruct (Z.ltb_spec (u16 (index st + 1)) 0) as [Hneg|_]; [|reflexivity].
  pose proof (u16_range (index st + 1)) as Hr. unfold word16 in Hr. lia.
Qed.

Lemma operands_of_long_program_witness :
  operands (noop_at 7) = Ok (0, 0, 0).
Proof.
  apply (operands_of_long_program (noop_at 7)).
  change (program (noop_at 7)) with noop_image.
  unfold noop_image. rewrite length_replicate. apply Z2Nat.id. lia.
Defined.

(** ** Return *)

(** X26: opcode 18 resolves the word it pops.  With a stack whose top is
    [t], ret removes it and continues at what [t] resolves to: at [t]
    itself when it is below 32768, at the content of the register it names
    when it is from 32768 to 32775; a top from 32776 on is an overflow
    panic. *)
Theorem ret_resolves_popped_word (st : vm) (a b c t : Z) (k : stack) :
  operands st = Ok (a, b, c) ->
  at_index (program st) (index st) = Ok 18 ->
  stk st = Push k t ->
  (forall v, getValue (registers st) t = Ok v -> word16 v ->
     step st = Ok (Continue (with_index (with_stk st k) v))) /\
  (32776 <= t -> step st = Panic Overflow).
Proof.
  intros Hops Hop Hstk.
  rewrite (step_exec _ _ _ _ _ Hops Hop). unfold exec.
  rewrite Hstk, Pop_Push. split.
  - intros v Hv Hw. rewrite Hv. simpl.
    unfold loop_end, advance, with_index. simpl.
    rewrite (u16_pred_succ v Hw). reflexivity.
  - intros Hbig. rewrite getValue_overflow by exact Hbig. reflexivity.
Qed.

Lemma ret_resolves_popped_word_witness :
  index <$> (match step (instr_machine 18 0 0 0 5 6 7 [9; 3]) with
             | Ok (Continue st') => Some st' | _ => None end) = Some 3 /\
  index <$> (match step (instr_machine 18 0 0 0 5 6 7 [9; 32769]) with
             | Ok (Continue st') => Some st' | _ => None end) = Some 6 /\
  step (instr_machine 18 0 0 0 5 6 7 [9; 40000]) = Panic Overflow.
Proof.
  split; [|split].
  - destruct (ret_resolves_popped_word (instr_machine 18 0 0 0 5 6 7 [9; 3])
                0 0 0 3 (mkStack [9]) eq_refl eq_refl eq_refl) as [H _].
    rewrite (H 3); [reflexivity|reflexivity|unfold word16; lia].
  - destruct (ret_resolves_popped_word (instr_machine 18 0 0 0 5 6 7 [9; 32769])
                0 0 0 32769 (mkStack [9]) eq_refl eq_refl eq_refl) as [H _].
    rewrite (H 6); [reflexivity|reflexivity|unfold word16; lia].
  - destruct (ret_resolves_popped_word (instr_machine 18 0 0 0 5 6 7 [9; 40000])
                0 0 0 40000 (mkStack [9]) eq_refl eq_refl eq_refl) as [_ H].
    apply H. lia.
Defined.
